(** * Graph editor operators and the Triangulate node: a shallow embedding

  Source files embedded here:
  - [source/blender/editors/space_graph/graph_edit.c]
    ([get_graph_keyframe_extents], the preview-range operator, the
    Decimate Keyframes operator, the Euler filter);
  - [source/blender/nodes/geometry/nodes/node_geo_triangulate.cc]
    ([geo_triangulate_exec]).

  C [float] is IEEE-754 binary32 with round-to-nearest-even, taken from the
  Standard Library's [SpecFloat] at precision 24 and maximal exponent 128.
  C [int] values are modelled as [Z], wrapped to 32 bits where the code
  computes a difference or a byte count.  Pointers that may be [NULL] are
  [option]s.  Calls into the window manager (reports, notifiers, cursor,
  status text) are recorded in an event log carried by the state. *)

From Stdlib Require Import ZArith List Bool String Lia Floats.SpecFloat.
From stdpp Require Import base list.
Import ListNotations.

(* ====================================================================== *)
(** * Single-precision floats *)
(* ====================================================================== *)

Module Float32.

Definition float : Type := spec_float.

Definition prec : Z := 24.
Definition emax : Z := 128.

Definition fadd : float -> float -> float := SFadd prec emax.
Definition fsub : float -> float -> float := SFsub prec emax.
Definition fmul : float -> float -> float := SFmul prec emax.
Definition fdiv : float -> float -> float := SFdiv prec emax.
Definition fabsf : float -> float := SFabs.
(** C comparison operators [<], [>], [==] on floats (false on NaN). *)
Definition flt : float -> float -> bool := SFltb.
Definition fgt (a b : float) : bool := SFltb b a.
Definition feq : float -> float -> bool := SFeqb.

(** Conversion [(float)i] of an integer. *)
Definition of_int (i : Z) : float := binary_normalize prec emax i 0 false.

(** Conversion [(int)f]: truncation toward zero (the C conversion is
    undefined outside the range of [int] and on NaN; 0 is returned there). *)
Definition to_int (f : float) : Z :=
  match f with
  | S754_finite s m e =>
      let a := match e with
               | Z0 => Zpos m
               | Zpos p => Z.shiftl (Zpos m) e
               | Zneg p => Z.shiftr (Zpos m) (Zpos p)
               end in
      if s then Z.opp a else a
  | _ => 0%Z
  end.

Definition fzero : float := S754_zero false.
Definition fone : float := of_int 1.
(** [FLT_MAX], 0x7F7FFFFF. *)
Definition FLT_MAX : float := SFmax_float prec emax.
(** The literal [0.0005f], 0x3A03126F. *)
Definition f_0_0005 : float := S754_finite false 8589935 (-34).
(** The literal [0.001f], 0x3A83126F. *)
Definition f_0_001 : float := S754_finite false 8589935 (-33).
(** The literal [100.0f]. *)
Definition f_100 : float := of_int 100.

End Float32.


Import Float32.

(* ====================================================================== *)
(** * Keyframe range: [get_graph_keyframe_extents] *)
(* ====================================================================== *)

Module Extents.

(** What [PSFRA] and [PEFRA] read from the scene (the macros are declared
    in a header outside the embedded files; their values are fields here). *)
Record Scene := { PSFRA : Z; PEFRA : Z }.

(** One filtered channel.  [ale_bounds] is the result of
    [BKE_fcurve_calc_bounds] on the channel's F-Curve ([None] when it
    returns false), as (txmin, txmax, tymin, tymax); [ale_adt] is the NLA
    remapping [BKE_nla_tweakedit_remap(adt, ., NLATIME_CONVERT_MAP)] when
    [ANIM_nla_mapping_get] finds animation data; [ale_unitFac] and
    [ale_offset] are what [ANIM_unit_mapping_get_factor] returns. *)
Record bAnimListElem := {
  ale_bounds : bool -> bool -> option (float * float * float * float);
  ale_adt : option (float -> float);
  ale_unitFac : float;
  ale_offset : float
}.

Record bAnimContext := {
  scene : option Scene;
  (** the channels [ANIM_animdata_filter] returns for this context *)
  anim_data : list bAnimListElem
}.

(** The four out-parameters; [None] is a [NULL] pointer. *)
Record Out := { xmin : option float; xmax : option float;
                ymin : option float; ymax : option float }.

(** [if (p) *p = v;] *)
Definition store (p : option float) (v : float) : option float :=
  match p with Some _ => Some v | None => None end.

(** [if ((p) && (t < *p)) *p = t;] *)
Definition lower (p : option float) (t : float) : option float :=
  match p with
  | Some v => if flt t v then Some t else Some v
  | None => None
  end.

(** [if ((p) && (t > *p)) *p = t;] *)
Definition raise (p : option float) (t : float) : option float :=
  match p with
  | Some v => if fgt t v then Some t else Some v
  | None => None
  end.

Definition init_extents (o : Out) : Out :=
  {| xmin := store (xmin o) (of_int 999999999);
     xmax := store (xmax o) (of_int (-999999999));
     ymin := store (ymin o) (of_int 999999999);
     ymax := store (ymax o) (of_int (-999999999)) |}.

(** Body of the channel loop; the state is the out-parameters and
    [foundBounds]. *)
Definition channel_step (do_sel_only include_handles : bool)
    (st : Out * bool) (ale : bAnimListElem) : Out * bool :=
  let '(o, foundBounds) := st in
  match ale_bounds ale do_sel_only include_handles with
  | Some (txmin, txmax, tymin, tymax) =>
      let txmin := match ale_adt ale with Some remap => remap txmin | None => txmin end in
      let txmax := match ale_adt ale with Some remap => remap txmax | None => txmax end in
      let tymin := fadd tymin (ale_offset ale) in
      let tymax := fadd tymax (ale_offset ale) in
      let tymin := fmul tymin (ale_unitFac ale) in
      let tymax := fmul tymax (ale_unitFac ale) in
      ({| xmin := lower (xmin o) txmin;
          xmax := raise (xmax o) txmax;
          ymin := lower (ymin o) tymin;
          ymax := raise (ymax o) tymax |}, true)
  | None => (o, foundBounds)
  end.

(** The extents as computed by the loop, before the final adjustment. *)
Definition raw_extents (ac : bAnimContext) (o : Out)
    (do_sel_only include_handles : bool) : Out * bool :=
  fold_left (channel_step do_sel_only include_handles) (anim_data ac)
            (init_extents o, false).

(** The test [(lo && hi) && (fabsf(hi[0] - lo[0]) < 0.001f)] on two
    out-parameters. *)
Definition degenerate (lo hi : option float) : bool :=
  match lo, hi with
  | Some a, Some b => flt (fabsf (fsub b a)) f_0_001
  | _, _ => false
  end.

Definition widen_x (o : Out) : Out :=
  if degenerate (xmin o) (xmax o) then
    {| xmin := (fun a => fsub a f_0_0005) <$> xmin o;
       xmax := (fun b => fadd b f_0_0005) <$> xmax o;
       ymin := ymin o; ymax := ymax o |}
  else o.

Definition widen_y (o : Out) : Out :=
  if degenerate (ymin o) (ymax o) then
    {| xmin := xmin o; xmax := xmax o;
       ymin := ymin o;
       ymax := (fun b => fadd (fsub b f_0_0005) f_0_0005) <$> ymax o |}
  else o.

(** [get_graph_keyframe_extents].  The result is [None] when the function
    dereferences a [NULL] scene (the [PSFRA] and [PEFRA] uses in the branch
    where no channel has bounds, reached when [xmin] or [xmax] is given). *)
Definition get_graph_keyframe_extents (ac : bAnimContext) (o : Out)
    (do_sel_only include_handles : bool) : option Out :=
  let o0 := init_extents o in
  match anim_data ac with
  | _ :: _ =>
      let '(o1, foundBounds) := raw_extents ac o do_sel_only include_handles in
      if foundBounds then Some (widen_y (widen_x o1))
      else
        match scene ac with
        | Some sc =>
            Some {| xmin := store (xmin o1) (of_int (PSFRA sc));
                    xmax := store (xmax o1) (of_int (PEFRA sc));
                    ymin := store (ymin o1) (of_int (-5));
                    ymax := store (ymax o1) (of_int 5) |}
        | None =>
            match xmin o1, xmax o1 with
            | None, None =>
                Some {| xmin := None; xmax := None;
                        ymin := store (ymin o1) (of_int (-5));
                        ymax := store (ymax o1) (of_int 5) |}
            | _, _ => None
            end
        end
  | [] =>
      let o1 :=
        match scene ac with
        | Some sc =>
            {| xmin := store (xmin o0) (of_int (PSFRA sc));
               xmax := store (xmax o0) (of_int (PEFRA sc));
               ymin := ymin o0; ymax := ymax o0 |}
        | None =>
            {| xmin := store (xmin o0) (of_int (-5));
               xmax := store (xmax o0) (of_int 100);
               ymin := ymin o0; ymax := ymax o0 |}
        end in
      Some {| xmin := xmin o1; xmax := xmax o1;
              ymin := store (ymin o1) (of_int (-5));
              ymax := store (ymax o1) (of_int 5) |}
  end.

(** A context with one channel whose only key sits at frame 1 with value
    [0.0001f] (0x38D1B717), no NLA mapping, unit factor 1 and offset 0. *)
Definition f_0_0001 : float := S754_finite false 13743895 (-37).

Definition flat_channel : bAnimListElem :=
  {| ale_bounds := fun _ _ => Some (fone, fone, f_0_0001, f_0_0001);
     ale_adt := None;
     ale_unitFac := fone;
     ale_offset := fzero |}.

Definition flat_context : bAnimContext :=
  {| scene := Some {| PSFRA := 1; PEFRA := 250 |};
     anim_data := [flat_channel] |}.

Definition all_requested : Out :=
  {| xmin := Some fzero; xmax := Some fzero;
     ymin := Some fzero; ymax := Some fzero |}.

(** A context with one channel whose only key sits at frame 1 with the
    value [v]. *)
Definition single_key_channel (v : float) : bAnimListElem :=
  {| ale_bounds := fun _ _ => Some (fone, fone, v, v);
     ale_adt := None;
     ale_unitFac := fone;
     ale_offset := fzero |}.

Definition single_key_context (v : float) : bAnimContext :=
  {| scene := Some {| PSFRA := 1; PEFRA := 250 |};
     anim_data := [single_key_channel v] |}.

(** 2^-47. *)
Definition f_2_pow_m47 : float := S754_finite false 8388608 (-70).

End Extents.

(* ====================================================================== *)
(** * The Triangulate geometry node: [geo_triangulate_exec] *)
(* ====================================================================== *)

Module Triangulate.

Section Node.

(** The mesh type and the external routine [triangulate_mesh] (declared
    [extern "C"] in the node's file, defined elsewhere). *)
Variable Mesh : Type.
Variable triangulate_mesh : Mesh -> Z -> Z -> Z -> Z -> Mesh.

(** A geometry holds a mesh or none ([mesh_get_for_read] returns
    [nullptr]). *)
Record Geometry := { mesh_get_for_read : option Mesh }.

(** The node's inputs by socket name; an absent geometry is [None]. *)
Record Inputs := {
  in_Geometry : option Geometry;
  in_Minimum_Vertices : Z
}.

(** One call of [triangulate_mesh] with its five arguments. *)
Record Call := {
  call_mesh : Mesh;
  call_quad_method : Z;
  call_ngon_method : Z;
  call_min_vertices : Z;
  call_flag : Z
}.

(** [geo_triangulate_exec]: the value moved into the "Geometry" output and
    the calls of [triangulate_mesh] made on the way. *)
Definition geo_triangulate_exec (inputs : Inputs) : option Geometry * list Call :=
  let geometry_in := in_Geometry inputs in
  let min_vertices := Z.max (in_Minimum_Vertices inputs) 4 in
  match geometry_in with
  | Some g =>
      match mesh_get_for_read g with
      | Some mesh_in =>
          let mesh_out := triangulate_mesh mesh_in 3 0 min_vertices 0 in
          (Some {| mesh_get_for_read := Some mesh_out |},
           [ {| call_mesh := mesh_in; call_quad_method := 3;
                call_ngon_method := 0; call_min_vertices := min_vertices;
                call_flag := 0 |} ])
      | None => (None, [])
      end
  | None => (None, [])
  end.

End Node.

Arguments mesh_get_for_read {Mesh} _.
Arguments in_Geometry {Mesh} _.
Arguments in_Minimum_Vertices {Mesh} _.
Arguments call_min_vertices {Mesh} _.
Arguments geo_triangulate_exec {Mesh} _ _.

End Triangulate.

(* ====================================================================== *)
(** * The Decimate Keyframes operator *)
(* ====================================================================== *)

Module Decimate.

Local Open Scope Z_scope.

(** ** Data *)

(** Modelled from the spec: the keyframe point ([BezTriple] is declared in
    a DNA header outside the embedded files): time, value, the two handles
    and the interpolation kind. *)
Record BezTriple := {
  time : float;
  value : float;
  left_handle : float * float;
  right_handle : float * float;
  ipo : Z
}.

(** The fields of [FCurve] the operator touches: the keyframe array
    ([bezt], [NULL] for a baked curve), its length [totvert], and [flag],
    which stands for everything the animation filter inspects (selection,
    visibility, protection). *)
Record FCurve := {
  bezt : option (list BezTriple);
  totvert : Z;
  flag : Z
}.

(** [tBeztCopyData]. *)
Record tBeztCopyData := {
  tot_vert : Z;
  copy_bezt : list BezTriple
}.

(** [tDecimModes]. *)
Inductive tDecimModes := DECIM_RATIO | DECIM_ERROR.

(** Event types and values the modal callback distinguishes; every other
    event type is [EVT_OTHER] with its code. *)
Inductive EventType :=
| LEFTMOUSE | EVT_RETKEY | EVT_PADENTER | EVT_ESCKEY | RIGHTMOUSE | MOUSEMOVE
| EVT_OTHER (code : Z).

Inductive EventVal := KM_NOTHING | KM_PRESS | KM_RELEASE.

Record wmEvent := { ev_type : EventType; ev_val : EventVal; ev_x : Z }.

(** The part of [ARegion] read by the operator: [winrct.xmin] and [winx]. *)
Record ARegion := { winrct_xmin : Z; winx : Z }.

(** Operator return flags (bits 0 to 3, so that
    [OPERATOR_RUNNING_MODAL | OPERATOR_PASS_THROUGH] is a bitwise or). *)
Definition OPERATOR_RUNNING_MODAL : Z := 1.
Definition OPERATOR_CANCELLED : Z := 2.
Definition OPERATOR_FINISHED : Z := 4.
Definition OPERATOR_PASS_THROUGH : Z := 8.

Inductive ReportType := RPT_INFO | RPT_WARNING | RPT_ERROR.

(** What [decimate_draw_status_header] prints after the mode name: the
    numeric-input text, or the integer percentage of ["%d %%"]. *)
Inductive StatusText :=
| StatusNumInput (str_offs : string)
| StatusPercent (percent : Z).

(** Calls into the host, in the order they are made.  The argument of
    [ANIM_animdata_update] is the list of filtered channels, each tagged
    [ANIM_UPDATE_DEFAULT].  Modelled from the spec: [ANIM_animdata_update]
    (outside the embedded files) marks dependents dirty and is an opaque
    host call; it is recorded here and leaves the keyframe arrays alone. *)
Inductive Event :=
| WM_report (type : ReportType) (message : string)
| WM_event_add_notifier
| WM_cursor_modal_set
| WM_cursor_modal_restore
| ED_area_status_text (text : option StatusText)
| WM_event_add_modal_handler
| ANIM_animdata_update (anim_data : list nat).

(** ** The host routines the operator calls

    These are defined outside the embedded files.  [NumInput] with
    [hasNumInput], [handleNumInput], [applyNumInput] and [outputNumInput]
    is the numeric-input helper; [curve_listed] is the test
    [ANIM_animdata_filter] applies to an F-Curve's flags under the filter
    the operator always passes (visible, selected, editable, no
    duplicates); [decimate_fcurve] receives the curve by reference and
    returns only a success flag, so its model returns the flag and the
    curve as it leaves it.  [sizeof_BezTriple] is [sizeof(BezTriple)] in
    bytes: the structure is declared outside the embedded files. *)
Record Host := {
  sizeof_BezTriple : positive;
  NumInput : Type;
  num_calloc : NumInput;
  hasNumInput : NumInput -> bool;
  handleNumInput : NumInput -> wmEvent -> bool * NumInput;
  applyNumInput : NumInput -> float -> float * NumInput;
  outputNumInput : NumInput -> string;
  curve_listed : Z -> bool;
  decimate_fcurve : FCurve -> float -> float -> bool * FCurve
}.

(** [tDecimateGraphOp], over the type [N] of the numeric input: the
    snapshot list and the numeric input.  Its
    pointers to the animation context, scene, area and region refer to host
    data kept in [State]. *)
Record tDecimateGraphOp (N : Type) := {
  bezt_arr_list : list tBeztCopyData;
  num : N
}.
Arguments bezt_arr_list {N} _.
Arguments num {N} _.

(** The state the operator callbacks run in: the F-Curves of the animation
    context (a channel is the index of its curve), whether
    [ANIM_animdata_get_context] succeeds, the region, the operator's RNA
    properties, [op->customdata], and the host calls made so far. *)
Record State (N : Type) := {
  curves : list FCurve;
  context_ok : bool;
  region : ARegion;
  mode : tDecimModes;
  remove_ratio : float;
  remove_error_margin : float;
  customdata : option (tDecimateGraphOp N);
  events : list Event
}.
Arguments curves {N} _.
Arguments context_ok {N} _.
Arguments region {N} _.
Arguments mode {N} _.
Arguments remove_ratio {N} _.
Arguments remove_error_margin {N} _.
Arguments customdata {N} _.
Arguments events {N} _.

Section Operator.

Context (H : Host).

Definition set_curves (cs : list FCurve) (st : State (NumInput H)) : State (NumInput H) :=
  {| curves := cs; context_ok := context_ok st; region := region st;
     mode := mode st; remove_ratio := remove_ratio st;
     remove_error_margin := remove_error_margin st;
     customdata := customdata st; events := events st |}.

Definition set_customdata (d : option (tDecimateGraphOp (NumInput H))) (st : State (NumInput H)) : State (NumInput H) :=
  {| curves := curves st; context_ok := context_ok st; region := region st;
     mode := mode st; remove_ratio := remove_ratio st;
     remove_error_margin := remove_error_margin st;
     customdata := d; events := events st |}.

Definition emit (e : Event) (st : State (NumInput H)) : State (NumInput H) :=
  {| curves := curves st; context_ok := context_ok st; region := region st;
     mode := mode st; remove_ratio := remove_ratio st;
     remove_error_margin := remove_error_margin st;
     customdata := customdata st; events := events st ++ [e] |}.

(** Modelled from the spec: [RNA_property_float_set] on ["remove_ratio"]
    (the RNA library is outside the embedded files) stores the value
    clamped to the property's range, which [GRAPH_OT_decimate] declares as
    0.0f to 1.0f. *)
Definition clamp_ratio (v : float) : float :=
  if flt v fzero then fzero else if fgt v fone then fone else v.

Definition RNA_property_float_set (v : float) (st : State (NumInput H)) : State (NumInput H) :=
  let v := clamp_ratio v in
  {| curves := curves st; context_ok := context_ok st; region := region st;
     mode := mode st; remove_ratio := v;
     remove_error_margin := remove_error_margin st;
     customdata := customdata st; events := events st |}.

(** ** Filtering *)

(** Modelled from the spec: [ANIM_animdata_filter] (outside the embedded
    files) enumerates the currently selected, eligible curves.  It yields
    the channels of the curves that pass the filter test, in the order of
    the data, each once ([ANIMFILTER_NODUPLIS]). *)
Fixpoint filter_from (k : nat) (cs : list FCurve) : list nat :=
  match cs with
  | [] => []
  | fcu :: cs' =>
      if curve_listed H (flag fcu) then k :: filter_from (S k) cs'
      else filter_from (S k) cs'
  end.

Definition ANIM_animdata_filter (cs : list FCurve) : list nat :=
  filter_from 0%nat cs.

(** ** [decimate_graph_keys] *)

Definition skip_message : string :=
  "Decimate: Skipping non linear/bezier keyframes!".

(** Body of the loop for one channel. *)
Definition decimate_step (remove_ratio error_sq_max : float)
    (st : State (NumInput H)) (ale : nat) : State (NumInput H) :=
  match curves st !! ale with
  | Some fcu =>
      let '(ok, fcu') := decimate_fcurve H fcu remove_ratio error_sq_max in
      let st1 := set_curves (<[ale := fcu']> (curves st)) st in
      if ok then st1 else emit (WM_report RPT_WARNING skip_message) st1
  | None => st
  end.

Definition decimate_graph_keys (remove_ratio error_sq_max : float)
    (st : State (NumInput H)) : State (NumInput H) :=
  let anim_data := ANIM_animdata_filter (curves st) in
  let st1 := fold_left (decimate_step remove_ratio error_sq_max) anim_data st in
  emit (ANIM_animdata_update anim_data) st1.

(** ** The batch, with [decimate_fcurve] called by reference

    [decimate_fcurve] is handed the channel, reaches the live curves
    through it, and returns a flag.  Read from [decimate_graph_keys]
    alone, the call is a routine on the curves of the context: the loop
    passes the channel, tests the flag and assigns nothing. *)
Definition decimate_call : Type :=
  list FCurve -> nat -> float -> float -> bool * list FCurve.

Definition decimate_step_by_reference (call : decimate_call)
    (remove_ratio error_sq_max : float)
    (st : State (NumInput H)) (ale : nat) : State (NumInput H) :=
  let '(ok, cs) := call (curves st) ale remove_ratio error_sq_max in
  let st1 := set_curves cs st in
  if ok then st1 else emit (WM_report RPT_WARNING skip_message) st1.

Definition decimate_graph_keys_by_reference (call : decimate_call)
    (remove_ratio error_sq_max : float)
    (st : State (NumInput H)) : State (NumInput H) :=
  let anim_data := ANIM_animdata_filter (curves st) in
  let st1 := fold_left (decimate_step_by_reference call remove_ratio error_sq_max)
               anim_data st in
  emit (ANIM_animdata_update anim_data) st1.

(** The call of the host's [decimate_fcurve]: the curve of the channel is
    what the routine leaves of it, every other curve is as before. *)
Definition in_place : decimate_call :=
  fun cs ale remove_ratio error_sq_max =>
    match cs !! ale with
    | Some fcu =>
        let '(ok, fcu') := decimate_fcurve H fcu remove_ratio error_sq_max in
        (ok, <[ale := fcu']> cs)
    | None => (true, cs)
    end.

(** ** Snapshot and restore *)

Definition INT_MAX : Z := 2147483647.

(** Conversion to a C [int], wrapping to 32 bits. *)
Definition int_wrap (z : Z) : Z :=
  (z + 2147483648) mod 4294967296 - 2147483648.

(** [const int arr_size = sizeof(BezTriple) * tot_vert]: the product is
    taken in [size_t] and converted to [int]. *)
Definition arr_size (tot_vert : Z) : Z :=
  int_wrap (Z.pos (sizeof_BezTriple H) * tot_vert).

(** [dst = MEM_mallocN(arr_size, ...)] followed by
    [memcpy(dst, src, arr_size)].  A negative [arr_size] reaches both as
    a [size_t] above 2^63: no block of that size exists, and the copy
    leaves the source block or goes through [NULL].  Otherwise the new
    block has room for [arr_size / sizeof(BezTriple)] whole keys (the
    bytes of a further, partial key are not kept), and these are read
    from [src]; reading them past the end of [src] is undefined.  [None]
    is either failure. *)
Definition memcpy (arr_size : Z) (src : list BezTriple)
    : option (list BezTriple) :=
  if arr_size <? 0 then None
  else
    let n := Z.to_nat (arr_size / Z.pos (sizeof_BezTriple H)) in
    if (length src <? n)%nat then None else Some (firstn n src).

(** The copy loop of [graphkeys_decimate_invoke]; [BLI_addtail] appends. *)
Fixpoint copy_loop (anim_data : list nat) (cs : list FCurve)
    (bezt_arr : list tBeztCopyData) : option (list tBeztCopyData) :=
  match anim_data with
  | [] => Some bezt_arr
  | ale :: rest =>
      match cs !! ale with
      | Some fcu =>
          match bezt fcu with
          | None => copy_loop rest cs bezt_arr
          | Some b =>
              bezts_copy ← memcpy (arr_size (totvert fcu)) b;
              let copy := {| tot_vert := totvert fcu;
                             copy_bezt := bezts_copy |} in
              copy_loop rest cs (bezt_arr ++ [copy])
          end
      | None => copy_loop rest cs bezt_arr
      end
  end.

(** The loop of [decimate_reset_bezts].  [None] is a dereference of a
    [NULL] [link_bezt], or a failed copy. *)
Fixpoint reset_loop (anim_data : list nat) (link_bezt : list tBeztCopyData)
    (cs : list FCurve) : option (list FCurve) :=
  match anim_data with
  | [] => Some cs
  | ale :: rest =>
      match cs !! ale with
      | Some fcu =>
          match bezt fcu with
          | None => reset_loop rest link_bezt cs
          | Some _ =>
              match link_bezt with
              | data :: next =>
                  b ← memcpy (arr_size (tot_vert data)) (copy_bezt data);
                  let fcu' := {| bezt := Some b;
                                 totvert := tot_vert data;
                                 flag := flag fcu |} in
                  reset_loop rest next (<[ale := fcu']> cs)
              | [] => None
              end
          end
      | None => reset_loop rest link_bezt cs
      end
  end.

Definition decimate_reset_bezts (dgo : tDecimateGraphOp (NumInput H)) (st : State (NumInput H))
    : option (State (NumInput H)) :=
  cs ← reset_loop (ANIM_animdata_filter (curves st)) (bezt_arr_list dgo) (curves st);
  Some (set_curves cs st).

(** ** Session helpers *)

Definition decimate_exit (st : State (NumInput H)) : State (NumInput H) :=
  match customdata st with
  | None => st
  | Some _ =>
      set_customdata None
        (emit (ED_area_status_text None) (emit WM_cursor_modal_restore st))
  end.

Definition decimate_draw_status_header (dgo : tDecimateGraphOp (NumInput H))
    (st : State (NumInput H)) : State (NumInput H) :=
  if hasNumInput H (num dgo) then
    emit (ED_area_status_text (Some (StatusNumInput (outputNumInput H (num dgo))))) st
  else
    let percentage := remove_ratio st in
    emit (ED_area_status_text (Some (StatusPercent (to_int (fmul percentage f_100))))) st.

(** Subtraction of two C [int]s, wrapping to 32 bits. *)
Definition int_sub (a b : Z) : Z :=
  (a - b + 2147483648) mod 4294967296 - 2147483648.

Definition decimate_mouse_update_percentage (st : State (NumInput H)) (event : wmEvent)
    : State (NumInput H) :=
  let percentage :=
    fdiv (of_int (int_sub (ev_x event) (winrct_xmin (region st))))
         (of_int (winx (region st))) in
  RNA_property_float_set percentage st.

Definition baked_message : string :=
  "Fcurve Decimate: Can't decimate baked channels. Unbake them and try again.".

(** ** [graphkeys_decimate_invoke]

    [None] is a failed copy of a keyframe array. *)

Definition graphkeys_decimate_invoke (st : State (NumInput H)) (event : wmEvent)
    : option (Z * State (NumInput H)) :=
  let st := emit WM_cursor_modal_set st in
  let dgo := {| bezt_arr_list := []; num := num_calloc H |} in
  let st := set_customdata (Some dgo) st in
  if negb (context_ok st) then Some (OPERATOR_CANCELLED, decimate_exit st)
  else
    let st := decimate_mouse_update_percentage st event in
    let st := decimate_draw_status_header dgo st in
    let anim_data := ANIM_animdata_filter (curves st) in
    bezt_arr ← copy_loop anim_data (curves st) (bezt_arr_list dgo);
    let dgo := {| bezt_arr_list := bezt_arr; num := num dgo |} in
    let st := set_customdata (Some dgo) st in
    match bezt_arr_list dgo with
    | [] =>
        let st := emit (WM_report RPT_WARNING baked_message) st in
        Some (OPERATOR_CANCELLED, decimate_exit st)
    | _ :: _ =>
        Some (OPERATOR_RUNNING_MODAL, emit WM_event_add_modal_handler st)
    end.

(** ** [graphkeys_decimate_modal_update] *)

Definition graphkeys_decimate_modal_update (st : State (NumInput H)) : option (State (NumInput H)) :=
  dgo ← customdata st;
  let st := decimate_draw_status_header dgo st in
  st ← decimate_reset_bezts dgo st;
  let remove_ratio := remove_ratio st in
  let error_sq_max := FLT_MAX in
  let st := decimate_graph_keys remove_ratio error_sq_max st in
  Some (emit WM_event_add_notifier st).

(** ** [graphkeys_decimate_modal]

    [None] is a crash: a [NULL] [op->customdata] or snapshot link is
    dereferenced, or a keyframe array cannot be copied back. *)
Definition graphkeys_decimate_modal (st : State (NumInput H)) (event : wmEvent)
    : option (Z * State (NumInput H)) :=
  dgo ← customdata st;
  let has_numinput := hasNumInput H (num dgo) in
  match ev_type event with
  | LEFTMOUSE | EVT_RETKEY | EVT_PADENTER =>
      match ev_val event with
      | KM_PRESS => Some (OPERATOR_FINISHED, decimate_exit st)
      | _ => Some (OPERATOR_RUNNING_MODAL, st)
      end
  | EVT_ESCKEY | RIGHTMOUSE =>
      match ev_val event with
      | KM_PRESS =>
          st ← decimate_reset_bezts dgo st;
          let st := emit WM_event_add_notifier st in
          Some (OPERATOR_CANCELLED, decimate_exit st)
      | _ => Some (OPERATOR_RUNNING_MODAL, st)
      end
  | MOUSEMOVE =>
      if has_numinput then Some (OPERATOR_RUNNING_MODAL, st)
      else
        let st := decimate_mouse_update_percentage st event in
        st ← graphkeys_decimate_modal_update st;
        Some (OPERATOR_RUNNING_MODAL, st)
  | EVT_OTHER _ =>
      let unhandled := Some (Z.lor OPERATOR_RUNNING_MODAL OPERATOR_PASS_THROUGH, st) in
      match ev_val event with
      | KM_PRESS =>
          let '(handled, n) := handleNumInput H (num dgo) event in
          let st := set_customdata
                      (Some {| bezt_arr_list := bezt_arr_list dgo; num := n |}) st in
          if handled then
            let percentage := remove_ratio st in
            let value := fmul percentage f_100 in
            let '(value, n) := applyNumInput H n value in
            let st := set_customdata
                        (Some {| bezt_arr_list := bezt_arr_list dgo; num := n |}) st in
            let percentage := fdiv value f_100 in
            let st := RNA_property_float_set percentage st in
            st ← graphkeys_decimate_modal_update st;
            Some (OPERATOR_RUNNING_MODAL, st)
          else Some (Z.lor OPERATOR_RUNNING_MODAL OPERATOR_PASS_THROUGH, st)
      | _ => unhandled
      end
  end.

(** ** [graphkeys_decimate_exec] *)

Definition graphkeys_decimate_exec (st : State (NumInput H)) : Z * State (NumInput H) :=
  if negb (context_ok st) then (OPERATOR_CANCELLED, st)
  else
    let '(remove_ratio, error_sq_max) :=
      match mode st with
      | DECIM_RATIO => (remove_ratio st, FLT_MAX)
      | DECIM_ERROR =>
          let error_sq_max := remove_error_margin st in
          (fone, fmul error_sq_max error_sq_max)
      end in
    if feq remove_ratio fzero || feq error_sq_max fzero then
      (OPERATOR_FINISHED, st)
    else
      let st := decimate_graph_keys remove_ratio error_sq_max st in
      (OPERATOR_FINISHED, emit WM_event_add_notifier st).

End Operator.

(** ** The loops, position by position

    The same three loops written by recursion on the curve list instead of
    on the channel list; the theorems below connect them to the loops
    above. *)
Section Positional.

Context (H : Host).

(** A curve the snapshot covers: listed by the filter and not baked. *)
Definition eligible (fcu : FCurve) : bool :=
  curve_listed H (flag fcu) && bool_decide (bezt fcu <> None).

(** The first [n] keys of an array. *)
Definition first_keys (n : Z) (src : list BezTriple) : list BezTriple :=
  firstn (Z.to_nat n) src.

Definition copy_of (fcu : FCurve) : list tBeztCopyData :=
  if curve_listed H (flag fcu) then
    match bezt fcu with
    | Some b => [ {| tot_vert := totvert fcu; copy_bezt := first_keys (totvert fcu) b |} ]
    | None => []
    end
  else [].

Definition snapshot_of (cs : list FCurve) : list tBeztCopyData :=
  flat_map copy_of cs.

Fixpoint reset_pos (cs : list FCurve) (link_bezt : list tBeztCopyData)
    : option (list FCurve) :=
  match cs with
  | [] => Some []
  | fcu :: cs' =>
      if eligible fcu then
        match link_bezt with
        | data :: next =>
            cs'' ← reset_pos cs' next;
            Some ({| bezt := Some (first_keys (tot_vert data) (copy_bezt data));
                     totvert := tot_vert data;
                     flag := flag fcu |} :: cs'')
        | [] => None
        end
      else cs'' ← reset_pos cs' link_bezt; Some (fcu :: cs'')
  end.

(** What a restore from the snapshot of [cs0] leaves in each curve. *)
Definition restored_curve (fcu : FCurve) : FCurve :=
  if curve_listed H (flag fcu) then
    match bezt fcu with
    | Some b =>
        {| bezt := Some (first_keys (totvert fcu) (first_keys (totvert fcu) b));
           totvert := totvert fcu; flag := flag fcu |}
    | None => fcu
    end
  else fcu.

Definition decimated_curve (remove_ratio error_sq_max : float) (fcu : FCurve)
    : FCurve :=
  if curve_listed H (flag fcu)
  then snd (decimate_fcurve H fcu remove_ratio error_sq_max)
  else fcu.

(** A listed curve on which [decimate_fcurve] reports failure. *)
Definition unsupported (remove_ratio error_sq_max : float) (fcu : FCurve)
    : bool :=
  curve_listed H (flag fcu)
  && negb (fst (decimate_fcurve H fcu remove_ratio error_sq_max)).

(** The warnings one curve contributes to the batch. *)
Definition skip_report (remove_ratio error_sq_max : float) (fcu : FCurve)
    : list Event :=
  if unsupported remove_ratio error_sq_max fcu
  then [WM_report RPT_WARNING skip_message] else [].

(** A state with its curves and its event log replaced. *)
Definition put (cs : list FCurve) (evs : list Event) (st : State (NumInput H)) : State (NumInput H) :=
  {| curves := cs; context_ok := context_ok st; region := region st;
     mode := mode st; remove_ratio := remove_ratio st;
     remove_error_margin := remove_error_margin st;
     customdata := customdata st; events := evs |}.

(** How the curves [b] of a running session relate to the curves [a] the
    session started from: same flags, a keyframe array where there was
    one, and no change at all where the snapshot does not cover the
    curve. *)
Definition session_rel (a b : FCurve) : Prop :=
  flag b = flag a /\
  (bezt a = None <-> bezt b = None) /\
  (eligible a = false -> b = a).

(** A snapshot entry that can be copied back: its byte count fits a C
    [int] and its array holds the keys it records. *)
Definition copy_fits (data : tBeztCopyData) : Prop :=
  0 <= Z.pos (sizeof_BezTriple H) * tot_vert data <= INT_MAX /\
  tot_vert data <= Z.of_nat (length (copy_bezt data)).

(** An active session started from the curves [cs0]. *)
Definition active (cs0 : list FCurve) (st : State (NumInput H)) : Prop :=
  exists dgo,
    customdata st = Some dgo /\
    bezt_arr_list dgo = snapshot_of cs0 /\
    Forall copy_fits (bezt_arr_list dgo) /\
    Forall2 session_rel cs0 (curves st).

(** The length recorded for a keyframe array is its length. *)
Definition fcu_wf (fcu : FCurve) : Prop :=
  forall b, bezt fcu = Some b -> totvert fcu = Z.of_nat (length b).

(** No overflow in [arr_size]: the byte count of the keyframe array of a
    listed curve fits a C [int]. *)
Definition arr_size_fits (fcu : FCurve) : Prop :=
  eligible fcu = true ->
  0 <= Z.pos (sizeof_BezTriple H) * totvert fcu <= INT_MAX.

(** What the session relies on from [decimate_fcurve]: it keeps the flags,
    leaves a baked curve as it is, and leaves a keyframe array (possibly
    shorter) where there was one. *)
Definition decimator_keeps_shape : Prop :=
  forall fcu r e,
    let fcu' := snd (decimate_fcurve H fcu r e) in
    flag fcu' = flag fcu /\
    (bezt fcu = None -> fcu' = fcu) /\
    (bezt fcu <> None -> bezt fcu' <> None).

(** Numeric input, once engaged, stays engaged. *)
Definition numinput_stays_engaged : Prop :=
  (forall n ev, hasNumInput H n = true ->
                hasNumInput H (snd (handleNumInput H n ev)) = true) /\
  (forall n v, hasNumInput H n = true ->
               hasNumInput H (snd (applyNumInput H n v)) = true).

(** Numeric input engaged in the session state. *)
Definition engaged (st : State (NumInput H)) : Prop :=
  exists dgo, customdata st = Some dgo /\ hasNumInput H (num dgo) = true.

(** One update with parameter [p]: what both the pointer path and the
    numeric path of the modal callback end with. *)
Definition update (p : float) (st : State (NumInput H)) : option (State (NumInput H)) :=
  graphkeys_decimate_modal_update H (RNA_property_float_set H p st).

Fixpoint updates (ps : list float) (st : State (NumInput H)) : option (State (NumInput H)) :=
  match ps with
  | [] => Some st
  | p :: ps' => st' ← update p st; updates ps' st'
  end.

(** Feeding events to the modal callback for as long as it keeps running
    modal. *)
Definition still_modal (ret : Z) : bool :=
  Z.testbit ret 0.

Fixpoint modal_run (evs : list wmEvent) (st : State (NumInput H)) : option (Z * State (NumInput H)) :=
  match evs with
  | [] => Some (OPERATOR_RUNNING_MODAL, st)
  | ev :: evs' =>
      '(ret, st') ← graphkeys_decimate_modal H st ev;
      if still_modal ret then modal_run evs' st' else Some (ret, st')
  end.

Definition is_mousemove (ev : wmEvent) : bool :=
  match ev_type ev with MOUSEMOVE => true | _ => false end.

Definition is_cancel (ev : wmEvent) : bool :=
  match ev_type ev, ev_val ev with
  | (EVT_ESCKEY | RIGHTMOUSE), KM_PRESS => true
  | _, _ => false
  end.

Definition is_warning (e : Event) : bool :=
  match e with
  | WM_report RPT_WARNING _ => true
  | _ => false
  end.

End Positional.

(** ** The decimator

    Modelled from the spec: [decimate_fcurve] is defined outside the
    embedded files.  Among the interior points the one whose removal costs
    least is removed, the leftmost on a tie, and the costs are taken anew
    after each removal; the process stops once
    floor(remove_ratio * point count) points are removed, or when the
    cheapest removal would exceed the error bound, or when no interior
    point is left.  The removal cost (the squared deviation the removal
    introduces) is a parameter.  Survivors are not changed.  A curve
    without keyframe array is rejected. *)
Section Decimator.

Variable removal_cost : list BezTriple -> list BezTriple -> nat -> float.

Definition interior (cur : list BezTriple) : list nat :=
  seq 1 (length cur - 2).

Fixpoint cheapest (orig cur : list BezTriple) (candidates : list nat)
    (best : option (nat * float)) : option (nat * float) :=
  match candidates with
  | [] => best
  | i :: rest =>
      let c := removal_cost orig cur i in
      match best with
      | None => cheapest orig cur rest (Some (i, c))
      | Some (_, cb) =>
          if flt c cb then cheapest orig cur rest (Some (i, c))
          else cheapest orig cur rest best
      end
  end.

Fixpoint decimate_loop (fuel : nat) (orig cur : list BezTriple)
    (removed target : nat) (error_sq_max : float) : list BezTriple :=
  match fuel with
  | O => cur
  | S fuel' =>
      if (target <=? removed)%nat then cur
      else
        match cheapest orig cur (interior cur) None with
        | None => cur
        | Some (i, c) =>
            if fgt c error_sq_max then cur
            else decimate_loop fuel' orig (delete i cur) (S removed) target error_sq_max
        end
  end.

Definition decimate_points (pts : list BezTriple)
    (remove_ratio error_sq_max : float) : list BezTriple :=
  let target := Z.to_nat (to_int (fmul remove_ratio (of_int (Z.of_nat (length pts))))) in
  decimate_loop (length pts) pts pts 0%nat target error_sq_max.

Definition spec_decimate_fcurve (fcu : FCurve) (remove_ratio error_sq_max : float)
    : bool * FCurve :=
  match bezt fcu with
  | None => (false, fcu)
  | Some pts =>
      let out := decimate_points pts remove_ratio error_sq_max in
      (true, {| bezt := Some out; totvert := Z.of_nat (length out); flag := flag fcu |})
  end.

Inductive DecimationPolicy :=
| ByRatio (remove_ratio : float)
| ByErrorBound (max_squared_error : float).

Inductive DecimationError := UnsupportedCurveKind.

(** [decimate(curve, policy)]: ratio mode has no error bound, error-bound
    mode lets every point be removed. *)
Definition decimate (curve : FCurve) (policy : DecimationPolicy)
    : FCurve + DecimationError :=
  let '(remove_ratio, error_sq_max) :=
    match policy with
    | ByRatio r => (r, S754_infinity false)
    | ByErrorBound e => (fone, e)
    end in
  match spec_decimate_fcurve curve remove_ratio error_sq_max with
  | (true, out) => inl out
  | (false, _) => inr UnsupportedCurveKind
  end.

(** Modelled from the spec: numeric text entry ([NumInput] is defined
    outside the embedded files).  A key with code 0 to 9 types that digit;
    once a digit is typed the entry is engaged and stays so. *)
Record SpecNumInput := { ni_engaged : bool; ni_value : float }.

Definition spec_handleNumInput (n : SpecNumInput) (ev : wmEvent)
    : bool * SpecNumInput :=
  match ev_type ev with
  | EVT_OTHER d =>
      if (0 <=? d) && (d <=? 9) then
        let old := if ni_engaged n then ni_value n else fzero in
        (true, {| ni_engaged := true;
                  ni_value := fadd (fmul old (of_int 10)) (of_int d) |})
      else (false, n)
  | _ => (false, n)
  end.

Definition spec_applyNumInput (n : SpecNumInput) (v : float)
    : float * SpecNumInput :=
  (if ni_engaged n then ni_value n else v, n).

(** Modelled from the spec: the host lists the curves that are visible
    (bit 0 of the flags), selected (bit 1) and not protected (bit 3). *)
Definition spec_curve_listed (flag : Z) : bool :=
  Z.testbit flag 0 && Z.testbit flag 1 && negb (Z.testbit flag 3).

(** The samples take [sizeof(BezTriple)] to be 72 bytes. *)
Definition spec_host : Host :=
  {| sizeof_BezTriple := 72;
     NumInput := SpecNumInput;
     num_calloc := {| ni_engaged := false; ni_value := fzero |};
     hasNumInput := ni_engaged;
     handleNumInput := spec_handleNumInput;
     applyNumInput := spec_applyNumInput;
     outputNumInput := fun _ => EmptyString;
     curve_listed := spec_curve_listed;
     decimate_fcurve := spec_decimate_fcurve |}.

End Decimator.

(** ** Sample data *)

(** A key at integer time and value, handles one third of a frame away. *)
Definition key (t v : Z) : BezTriple :=
  {| time := of_int t; value := of_int v;
     left_handle := (fsub (of_int t) (fdiv fone (of_int 3)), of_int v);
     right_handle := (fadd (of_int t) (fdiv fone (of_int 3)), of_int v);
     ipo := 2 |}.

(** Five collinear keys at times 0..4 with values 0..4. *)
Definition line5 : list BezTriple :=
  [key 0 0; key 1 1; key 2 2; key 3 3; key 4 4].

Definition fcu_line : FCurve := {| bezt := Some line5; totvert := 5; flag := 3 |}.
Definition fcu_pair : FCurve := {| bezt := Some [key 0 0; key 9 1]; totvert := 2; flag := 3 |}.
Definition fcu_baked : FCurve := {| bezt := None; totvert := 0; flag := 3 |}.
Definition fcu_unselected : FCurve := {| bezt := Some line5; totvert := 5; flag := 1 |}.

Definition zero_cost (orig cur : list BezTriple) (i : nat) : float := fzero.

Definition demo_host : Host := spec_host zero_cost.

(** A host whose [decimate_fcurve] reports success and leaves the curve
    alone. *)
Definition inert_host : Host :=
  {| sizeof_BezTriple := 72;
     NumInput := SpecNumInput;
     num_calloc := {| ni_engaged := false; ni_value := fzero |};
     hasNumInput := ni_engaged;
     handleNumInput := spec_handleNumInput;
     applyNumInput := spec_applyNumInput;
     outputNumInput := fun _ => EmptyString;
     curve_listed := spec_curve_listed;
     decimate_fcurve := fun fcu _ _ => (true, fcu) |}.

Definition demo_state (H : Host) (cs : list FCurve) : State (NumInput H) :=
  {| curves := cs; context_ok := true;
     region := {| winrct_xmin := 0; winx := 1000 |};
     mode := DECIM_RATIO;
     remove_ratio := fdiv fone (of_int 3);
     remove_error_margin := fzero;
     customdata := None; events := [] |}.

Definition mouse_at (x : Z) : wmEvent :=
  {| ev_type := MOUSEMOVE; ev_val := KM_NOTHING; ev_x := x |}.

Definition press (t : EventType) : wmEvent :=
  {| ev_type := t; ev_val := KM_PRESS; ev_x := 0 |}.

Definition f_half : float := fdiv fone (of_int 2).
Definition f_0_9 : float := fdiv (of_int 9) (of_int 10).
Definition f_0_2 : float := fdiv (of_int 2) (of_int 10).

(** A selection of four curves, one baked and one not selected, and the
    session started on it with the pointer in the middle of the region. *)
Definition demo_start : State SpecNumInput :=
  demo_state demo_host [fcu_line; fcu_baked; fcu_unselected; fcu_pair].

Definition demo_session : State SpecNumInput :=
  match graphkeys_decimate_invoke demo_host demo_start (mouse_at 500) with
  | Some (_, st) => st
  | None => demo_start
  end.

(** The same session after the digit 5 has been typed. *)
Definition demo_typed : State SpecNumInput :=
  match graphkeys_decimate_modal demo_host demo_session (press (EVT_OTHER 5)) with
  | Some (_, st) => st
  | None => demo_session
  end.

(** Selections with one and with two baked curves, and one with baked
    curves only. *)
Definition one_baked : State SpecNumInput :=
  demo_state demo_host [fcu_line; fcu_baked; fcu_pair].

Definition two_baked : State SpecNumInput :=
  demo_state demo_host [fcu_baked; fcu_line; fcu_baked].

Definition only_baked : State SpecNumInput :=
  demo_state demo_host [fcu_baked; fcu_unselected].

(** The operator about to be executed with a ratio of zero. *)
Definition demo_zero_ratio : State SpecNumInput :=
  RNA_property_float_set demo_host fzero one_baked.

(** The session data after the digit 5 has been typed. *)
Definition demo_typed_op : tDecimateGraphOp SpecNumInput :=
  Build_tDecimateGraphOp SpecNumInput
    (snapshot_of demo_host (curves demo_start))
    {| ni_engaged := true; ni_value := of_int 5 |}.

(** A numeric-input helper that can be left again: the key with code
    [backspace] clears the entry and disengages it; every other key is
    handled as before. *)
Definition backspace : Z := 223.

Definition clearing_handleNumInput (n : SpecNumInput) (ev : wmEvent)
    : bool * SpecNumInput :=
  match ev_type ev with
  | EVT_OTHER d =>
      if d =? backspace
      then (true, {| ni_engaged := false; ni_value := fzero |})
      else spec_handleNumInput n ev
  | _ => (false, n)
  end.

Definition clearing_host : Host :=
  {| sizeof_BezTriple := 72;
     NumInput := SpecNumInput;
     num_calloc := {| ni_engaged := false; ni_value := fzero |};
     hasNumInput := ni_engaged;
     handleNumInput := clearing_handleNumInput;
     applyNumInput := spec_applyNumInput;
     outputNumInput := fun _ => EmptyString;
     curve_listed := spec_curve_listed;
     decimate_fcurve := spec_decimate_fcurve zero_cost |}.

(** The session of [demo_start] with that helper. *)
Definition clearing_session : State SpecNumInput :=
  match graphkeys_decimate_invoke clearing_host demo_start (mouse_at 500) with
  | Some (_, st) => st
  | None => demo_start
  end.

(** A [decimate_fcurve] without side effect: it computes the decimated
    curve of the spec, reports whether the curve was supported, and leaves
    the curves of the context as they are. *)
Definition pure_call : decimate_call :=
  fun cs ale remove_ratio error_sq_max =>
    match cs !! ale with
    | Some fcu =>
        match decimate zero_cost fcu (ByRatio remove_ratio) with
        | inl _ => (true, cs)
        | inr _ => (false, cs)
        end
    | None => (true, cs)
    end.

End Decimate.

(* ====================================================================== *)
(** * Keyframe range: the channels seen by the loop, and the callers *)
(* ====================================================================== *)

Module Range.

Import Extents.

(** The bounds of one channel as the loop of [get_graph_keyframe_extents]
    compares them: after the NLA remapping of the times and the unit
    correction of the values ([None] when [BKE_fcurve_calc_bounds] finds
    nothing). *)
Definition channel_bounds (do_sel_only include_handles : bool)
    (ale : bAnimListElem) : option (float * float * float * float) :=
  match ale_bounds ale do_sel_only include_handles with
  | Some (txmin, txmax, tymin, tymax) =>
      let txmin := match ale_adt ale with Some remap => remap txmin | None => txmin end in
      let txmax := match ale_adt ale with Some remap => remap txmax | None => txmax end in
      let tymin := fadd tymin (ale_offset ale) in
      let tymax := fadd tymax (ale_offset ale) in
      let tymin := fmul tymin (ale_unitFac ale) in
      let tymax := fmul tymax (ale_unitFac ale) in
      Some (txmin, txmax, tymin, tymax)
  | None => None
  end.

(** Two sets of out-parameters with the same [NULL] pointers. *)
Definition same_pointers (o1 o2 : Out) : Prop :=
  (xmin o1 = None <-> xmin o2 = None) /\ (xmax o1 = None <-> xmax o2 = None) /\
  (ymin o1 = None <-> ymin o2 = None) /\ (ymax o1 = None <-> ymax o2 = None).

(** [t] is not below what [p] holds. *)
Definition not_below (t : float) (p : option float) : Prop :=
  forall v, p = Some v -> flt t v = false.

(** [t] is not above what [p] holds. *)
Definition not_above (t : float) (p : option float) : Prop :=
  forall v, p = Some v -> fgt t v = false.

(** The four bounds of a box are inside the out-parameters. *)
Definition inside (b : float * float * float * float) (o : Out) : Prop :=
  let '(txmin, txmax, tymin, tymax) := b in
  not_below txmin (xmin o) /\ not_above txmax (xmax o) /\
  not_below tymin (ymin o) /\ not_above tymax (ymax o).

(** [if (p) *p = v;] for the two-pointer call of the preview-range
    operator: [xmin] and [xmax] given, [ymin] and [ymax] [NULL]. *)
Definition x_only : Out :=
  {| xmin := Some fzero; xmax := Some fzero; ymin := None; ymax := None |}.

(** The part of the scene the preview-range operator writes: [r.flag],
    [r.psfra] and [r.pefra].  What [PSFRA] and [PEFRA] read before the
    call is the [Scene] of the animation context. *)
Record RenderData := { r_flag : Z; r_psfra : Z; r_pefra : Z }.

Inductive Event :=
| WM_event_add_notifier_frame.

(** The state of [graphkeys_previewrange_exec]: the animation context that
    [ANIM_animdata_get_context] fills ([None] when it fails), the render
    data of its scene, and the notifiers sent. *)
Record State := {
  context : option bAnimContext;
  render : RenderData;
  events : list Event
}.

Definition OPERATOR_CANCELLED : Z := 2.
Definition OPERATOR_FINISHED : Z := 4.

Section PreviewRange.

(** [round_fl_to_int] and the bit [SCER_PRV_RANGE] are declared outside the
    embedded files. *)
Variable round_fl_to_int : float -> Z.
Variable SCER_PRV_RANGE : Z.

(** [graphkeys_previewrange_exec].  [None] is the [NULL] dereference inside
    [get_graph_keyframe_extents]; an out-parameter the callee leaves
    unwritten cannot occur for the two pointers passed, and is given the
    same result. *)
Definition graphkeys_previewrange_exec (st : State) : option (Z * State) :=
  match context st with
  | None => Some (OPERATOR_CANCELLED, st)
  | Some ac =>
      match scene ac with
      | None => Some (OPERATOR_CANCELLED, st)
      | Some _ =>
          r ← get_graph_keyframe_extents ac x_only false false;
          min ← xmin r;
          max ← xmax r;
          let rd := {| r_flag := Z.lor (r_flag (render st)) SCER_PRV_RANGE;
                       r_psfra := round_fl_to_int min;
                       r_pefra := round_fl_to_int max |} in
          Some (OPERATOR_FINISHED,
                {| context := context st; render := rd;
                   events := events st ++ [WM_event_add_notifier_frame] |})
      end
  end.

End PreviewRange.

(** Sample contexts: no channel at all, and one channel on which
    [BKE_fcurve_calc_bounds] finds nothing. *)
Definition no_bounds_channel : bAnimListElem :=
  {| ale_bounds := fun _ _ => None;
     ale_adt := None;
     ale_unitFac := fone;
     ale_offset := fzero |}.

Definition empty_context : bAnimContext :=
  {| scene := Some {| PSFRA := 1; PEFRA := 250 |}; anim_data := [] |}.

Definition unkeyed_context : bAnimContext :=
  {| scene := Some {| PSFRA := 1; PEFRA := 250 |};
     anim_data := [no_bounds_channel; no_bounds_channel] |}.

(** Two channels with different ranges: frames 1 to 10 with values 0 to 5,
    and frames 4 to 20 with values -3 to 2. *)
Definition wide_channel (x0 x1 y0 y1 : Z) : bAnimListElem :=
  {| ale_bounds := fun _ _ => Some (of_int x0, of_int x1, of_int y0, of_int y1);
     ale_adt := None;
     ale_unitFac := fone;
     ale_offset := fzero |}.

Definition two_channels : bAnimContext :=
  {| scene := Some {| PSFRA := 1; PEFRA := 250 |};
     anim_data := [wide_channel 1 10 0 5; wide_channel 4 20 (-3) 2] |}.

End Range.

(* ====================================================================== *)
(** * The Decimate Keyframes operator: events, property panel *)
(* ====================================================================== *)

Module DecimateUI.

Import Decimate.

(** A confirming event: a press of the left mouse button, Return or the
    keypad Enter. *)
Definition is_confirm (ev : wmEvent) : bool :=
  match ev_type ev, ev_val ev with
  | (LEFTMOUSE | EVT_RETKEY | EVT_PADENTER), KM_PRESS => true
  | _, _ => false
  end.

(** A press of a key the modal callback hands to the numeric input. *)
Definition is_key_press (ev : wmEvent) : bool :=
  match ev_type ev, ev_val ev with
  | EVT_OTHER _, KM_PRESS => true
  | _, _ => false
  end.

Definition has_pass_through (ret : Z) : bool := Z.testbit ret 3.

(** The values of [tDecimModes] as [RNA_enum_get] returns them. *)
Definition DECIM_RATIO_value : Z := 1.
Definition DECIM_ERROR_value : Z := 2.

(** [STRPREFIX(a, b)]: [a] starts with [b]. *)
Definition STRPREFIX (a b : string) : bool := String.prefix b a.

(** [STREQ(a, b)]. *)
Definition STREQ (a b : string) : bool := String.eqb a b.

(** [graphkeys_decimate_poll_property], on the operator's mode and the
    identifier of the property. *)
Definition graphkeys_decimate_poll_property (mode : Z) (prop_id : string)
    : bool :=
  if STRPREFIX prop_id "remove" then
    if STREQ prop_id "remove_ratio" && negb (mode =? DECIM_RATIO_value)%Z
    then false
    else if STREQ prop_id "remove_error_margin" && negb (mode =? DECIM_ERROR_value)%Z
    then false
    else true
  else true.

(** [graphkeys_decimate_desc]: the description override, [None] for the
    default description. *)
Definition graphkeys_decimate_desc (mode : Z) : option string :=
  if (mode =? DECIM_ERROR_value)%Z then
    Some "Decimate F-Curves by specifying how much it can deviate from the original curve"%string
  else None.

End DecimateUI.

(* ====================================================================== *)
(** * The Euler Discontinuity Filter operator *)
(* ====================================================================== *)

Module Euler.

Import Decimate.

Local Open Scope Z_scope.

(** An ID block: pointers are compared by address, the name is printed in
    reports. *)
Record ID := { id_address : nat; id_name : string }.

(** The fields of [FCurve] the filter reads and writes.  The value of a
    keyframe, [bezt[i].vec[1][1]], is the field [value] of the keyframe
    point. *)
Record FCurve := {
  rna_path : string;
  array_index : Z;
  totvert : Z;
  bezt : option (list BezTriple)
}.

(** A filtered channel: its ID block ([NULL] is [None]) and its F-Curve,
    as the position of the curve among the curves of the context. *)
Record bAnimListElem := { ale_id : option ID; ale_data : nat }.

(** [tEulerFilter]: the three F-Curve pointers ([None] is [NULL]). *)
Record tEulerFilter := {
  euf_id : option ID;
  fcurves : option nat * option nat * option nat;
  euf_rna_path : string
}.

(** Reports, by their format string and arguments. *)
Inductive Report :=
| InvalidIndex (id_name : string) (path : string) (index : Z)
    (* RPT_WARNING "Euler Rotation F-Curve has invalid index (...)" *)
| MissingComponents (x y z : bool) (id_name : string) (path : string)
    (* RPT_INFO "Missing %s%s%s component(s) of euler rotation for ..." *)
| NotEquallyKeyed (id_name : string) (path : string)
    (* RPT_INFO "XYZ rotations not equally keyed for ..." *)
| NoEulerCurves
    (* RPT_WARNING "No Euler Rotation F-Curves to fix up" *)
| NoneCorrected
    (* RPT_ERROR "No Euler Rotations could be corrected, ..." *)
| SomeNotCorrected
    (* RPT_WARNING "Some Euler Rotations could not be corrected ..." *).

(** [strstr(haystack, needle) != NULL]. *)
Definition strstr (haystack needle : string) : bool :=
  match String.index 0 needle haystack with
  | Some _ => true
  | None => false
  end.

Definition same_id (a b : option ID) : bool :=
  match a, b with
  | Some x, Some y => Nat.eqb (id_address x) (id_address y)
  | None, None => true
  | _, _ => false
  end.

(** [euf->fcurves[i] = fcu] for [i] in 0, 1, 2. *)
Definition set_fcurve (i : Z) (fcu : nat)
    (f : option nat * option nat * option nat)
    : option nat * option nat * option nat :=
  let '(x, y, z) := f in
  if i =? 0 then (Some fcu, y, z)
  else if i =? 1 then (x, Some fcu, z)
  else (x, y, Some fcu).

(** The state of the grouping loop: the groups in list order (the current
    group [euf] is the last one added, [NULL] while the list is empty),
    the reports made, [*r_num_groups], and the channels tagged
    [ANIM_UPDATE_DEFAULT]. *)
Record Grouping := {
  euler_groups : list tEulerFilter;
  group_reports : list Report;
  r_num_groups : Z;
  tagged : list bAnimListElem
}.

(** One turn of the loop of [euler_filter_group_channels].  A channel
    whose curve pointer is dangling does not occur and is skipped. *)
Definition group_step (cs : list FCurve) (g : Grouping) (ale : bAnimListElem)
    : Grouping :=
  match cs !! ale_data ale with
  | None => g
  | Some fcu =>
      if negb (strstr (rna_path fcu) "rotation_euler") then g
      else if negb ((array_index fcu =? 0) || (array_index fcu =? 1)
                    || (array_index fcu =? 2)) then
        {| euler_groups := euler_groups g;
           group_reports :=
             group_reports g
             ++ [InvalidIndex
                   (match ale_id ale with Some i => id_name i | None => "<No ID>" end)
                   (rna_path fcu) (array_index fcu)];
           r_num_groups := r_num_groups g;
           tagged := tagged g |}
      else
        let tagged' := tagged g ++ [ale] in
        match last (euler_groups g) with
        | Some euf =>
            if same_id (euf_id euf) (ale_id ale)
               && String.eqb (euf_rna_path euf) (rna_path fcu)
            then
              let euf' := {| euf_id := euf_id euf;
                             fcurves := set_fcurve (array_index fcu) (ale_data ale)
                                                   (fcurves euf);
                             euf_rna_path := euf_rna_path euf |} in
              {| euler_groups := removelast (euler_groups g) ++ [euf'];
                 group_reports := group_reports g;
                 r_num_groups := r_num_groups g;
                 tagged := tagged' |}
            else
              {| euler_groups :=
                   euler_groups g
                   ++ [ {| euf_id := ale_id ale;
                           fcurves := set_fcurve (array_index fcu) (ale_data ale)
                                                 (None, None, None);
                           euf_rna_path := rna_path fcu |} ];
                 group_reports := group_reports g;
                 r_num_groups := r_num_groups g + 1;
                 tagged := tagged' |}
        | None =>
            {| euler_groups :=
                 euler_groups g
                 ++ [ {| euf_id := ale_id ale;
                         fcurves := set_fcurve (array_index fcu) (ale_data ale)
                                               (None, None, None);
                         euf_rna_path := rna_path fcu |} ];
               group_reports := group_reports g;
               r_num_groups := r_num_groups g + 1;
               tagged := tagged' |}
        end
  end.

(** [euler_filter_group_channels]. *)
Definition euler_filter_group_channels (cs : list FCurve)
    (anim_data : list bAnimListElem) (reports : list Report) : Grouping :=
  fold_left (group_step cs) anim_data
    {| euler_groups := []; group_reports := reports; r_num_groups := 0;
       tagged := [] |}.

Section Filter.

(** Rotation conversions and the keyframe mover, from the math and curve
    libraries outside the embedded files. *)
Variable Quat : Type.
Variable eul_to_quat : float * float * float -> Quat.
Variable quat_to_compatible_eul :
  float * float * float -> Quat -> float * float * float.
Variable BKE_fcurve_keyframe_move_value_with_handles :
  BezTriple -> float -> BezTriple.

(** [fcu->bezt[i].vec[1][1]]; [None] when the read is outside a keyframe
    array. *)
Definition key_value (cs : list FCurve) (fcu : nat) (i : nat) : option float :=
  c ← cs !! fcu; b ← bezt c; k ← b !! i; Some (value k).

(** [BKE_fcurve_keyframe_move_value_with_handles(&fcu->bezt[i], v)]. *)
Definition move_key (cs : list FCurve) (fcu : nat) (i : nat) (v : float)
    : option (list FCurve) :=
  c ← cs !! fcu; b ← bezt c; k ← b !! i;
  let k' := BKE_fcurve_keyframe_move_value_with_handles k v in
  Some (<[fcu := {| rna_path := rna_path c; array_index := array_index c;
                    totvert := totvert c; bezt := Some (<[i := k']> b) |}]> cs).

(** One turn of the keyframe loop of [euler_filter_quaternion]: the state
    is the curves and [last_euler]. *)
Definition keyframe_step (x y z : nat)
    (acc : option (list FCurve * (float * float * float)))
    (keyframe_index : nat) : option (list FCurve * (float * float * float)) :=
  '(cs, last_euler) ← acc;
  ex ← key_value cs x keyframe_index;
  ey ← key_value cs y keyframe_index;
  ez ← key_value cs z keyframe_index;
  let quaternion := eul_to_quat (ex, ey, ez) in
  let last_euler := quat_to_compatible_eul last_euler quaternion in
  let '(l0, l1, l2) := last_euler in
  cs ← move_key cs x keyframe_index l0;
  cs ← move_key cs y keyframe_index l1;
  cs ← move_key cs z keyframe_index l2;
  Some (cs, last_euler).

(** [euler_filter_quaternion]: the flag returned, the curves and the
    reports.  [None] is a [NULL] dereference: of [euf->id] in a report, or
    of a keyframe array. *)
Definition euler_filter_quaternion (euf : tEulerFilter)
    (cs : list FCurve) (reports : list Report)
    : option (bool * list FCurve * list Report) :=
  match fcurves euf with
  | (Some x, Some y, Some z) =>
      fx ← cs !! x; fy ← cs !! y; fz ← cs !! z;
      if negb (totvert fx =? totvert fy) || negb (totvert fy =? totvert fz) then
        i ← euf_id euf;
        Some (false, cs, reports ++ [NotEquallyKeyed (id_name i) (euf_rna_path euf)])
      else if totvert fx <? 2 then Some (true, cs, reports)
      else
        lx ← key_value cs x 0; ly ← key_value cs y 0; lz ← key_value cs z 0;
        '(cs', _) ← fold_left (keyframe_step x y z)
                      (seq 1 (Z.to_nat (totvert fx) - 1))
                      (Some (cs, (lx, ly, lz)));
        Some (true, cs', reports)
  | (x, y, z) =>
      i ← euf_id euf;
      Some (false, cs,
            reports ++ [MissingComponents (bool_decide (x = None))
                          (bool_decide (y = None)) (bool_decide (z = None))
                          (id_name i) (euf_rna_path euf)])
  end.

End Filter.

Section PerformFilter.

(** The call [euler_filter_quaternion(euf)] in
    [euler_filter_perform_filter] passes the group alone to a function of
    two parameters: the source is not well-formed at that line, and which
    report list, if any, the call would write to is not said.  What the
    call does is left open here: any routine on the curves and the
    reports that returns a flag, or fails. *)
Variable euler_filter_quaternion_call :
  tEulerFilter -> list FCurve -> list Report
  -> option (bool * list FCurve * list Report).

(** [euler_filter_perform_filter]: the number of failed groups. *)
Fixpoint euler_filter_perform_filter (eulers : list tEulerFilter)
    (cs : list FCurve) (reports : list Report)
    : option (Z * list FCurve * list Report) :=
  match eulers with
  | [] => Some (0, cs, reports)
  | euf :: rest =>
      match euler_filter_quaternion_call euf cs reports with
      | Some (ok, cs, reports) =>
          match euler_filter_perform_filter rest cs reports with
          | Some (failed, cs, reports) =>
              Some ((if ok then failed else failed + 1), cs, reports)
          | None => None
          end
      | None => None
      end
  end.

Inductive Event :=
| ANIM_animdata_update (tagged : list bAnimListElem)
| WM_event_add_notifier.

(** The state of the operator: whether [ANIM_animdata_get_context]
    succeeds, the curves of the context, the channels
    [ANIM_animdata_filter] lists, the reports and the host calls. *)
Record State := {
  context_ok : bool;
  curves : list FCurve;
  anim_data : list bAnimListElem;
  reports : list Report;
  events : list Event
}.

(** [graphkeys_euler_filter_exec]. *)
Definition graphkeys_euler_filter_exec (st : State) : option (Z * State) :=
  if negb (context_ok st) then Some (OPERATOR_CANCELLED, st)
  else
    let g := euler_filter_group_channels (curves st) (anim_data st) (reports st) in
    let groups := r_num_groups g in
    if groups =? 0 then
      Some (OPERATOR_CANCELLED,
            {| context_ok := context_ok st; curves := curves st;
               anim_data := anim_data st;
               reports := group_reports g ++ [NoEulerCurves];
               events := events st |})
    else
      '(failed, cs, reps) ←
        euler_filter_perform_filter (euler_groups g) (curves st) (group_reports g);
      let evs := events st ++ [ANIM_animdata_update (tagged g)] in
      if failed =? groups then
        Some (OPERATOR_CANCELLED,
              {| context_ok := context_ok st; curves := cs;
                 anim_data := anim_data st;
                 reports := reps ++ [NoneCorrected]; events := evs |})
      else
        let reps := if negb (failed =? 0) then reps ++ [SomeNotCorrected] else reps in
        Some (OPERATOR_FINISHED,
              {| context_ok := context_ok st; curves := cs;
                 anim_data := anim_data st;
                 reports := reps; events := evs ++ [WM_event_add_notifier] |}).

End PerformFilter.

(** A channel the grouping loop takes: its curve's path contains
    ["rotation_euler"] and its array index is 0, 1 or 2. *)
Definition euler_channel (cs : list FCurve) (ale : bAnimListElem) : bool :=
  match cs !! ale_data ale with
  | Some fcu =>
      strstr (rna_path fcu) "rotation_euler"
      && ((array_index fcu =? 0) || (array_index fcu =? 1) || (array_index fcu =? 2))
  | None => false
  end.

(** What the grouping loop keeps true. *)
Definition grouping_ok (g : Grouping) : Prop :=
  r_num_groups g = Z.of_nat (length (euler_groups g)) /\
  (length (euler_groups g) <= length (tagged g))%nat /\
  (tagged g <> [] -> euler_groups g <> []).

(** Two versions of a curve with the same path, index, recorded length,
    number of keys and first key. *)
Definition same_shape (a b : FCurve) : Prop :=
  rna_path b = rna_path a /\
  array_index b = array_index a /\
  totvert b = totvert a /\
  length <$> bezt b = length <$> bezt a /\
  bezt b ≫= head = bezt a ≫= head.

(** A group whose ID block is not [NULL] and whose curve pointers lie
    among [n] curves. *)
Definition group_valid (n : nat) (euf : tEulerFilter) : Prop :=
  euf_id euf <> None /\
  let '(x, y, z) := fcurves euf in
  (forall i, x = Some i -> (i < n)%nat) /\
  (forall i, y = Some i -> (i < n)%nat) /\
  (forall i, z = Some i -> (i < n)%nat).

(** The property a run without [NULL] dereference needs: every channel
    has an ID block and points to a curve, and every curve has a keyframe
    array of the recorded length. *)
Definition curve_keyed (fcu : FCurve) : Prop :=
  exists b, bezt fcu = Some b /\ totvert fcu = Z.of_nat (length b).

Definition channels_sound (cs : list FCurve) (anim_data : list bAnimListElem)
    : Prop :=
  Forall (fun ale => ale_id ale <> None /\ (ale_data ale < length cs)%nat) anim_data.

(** Curve [x] is among [cs] and records [n] keys. *)
Definition curve_length (cs : list FCurve) (x : nat) (n : Z) : Prop :=
  exists f, cs !! x = Some f /\ totvert f = n.

(** Sample data: a cube whose three Euler curves have two keys each, with
    a turn of more than half a circle between them on Z. *)
Definition rot_key (t : Z) (v : float) : BezTriple :=
  {| time := of_int t; value := v;
     left_handle := (of_int (t - 1), v); right_handle := (of_int (t + 1), v);
     ipo := 2 |}.

Definition rot_curve (i : Z) (v0 v1 : float) : FCurve :=
  {| rna_path := "rotation_euler"; array_index := i; totvert := 2;
     bezt := Some [rot_key 1 v0; rot_key 10 v1] |}.

Definition cube : ID := {| id_address := 1; id_name := "OBCube" |}.

Definition loc_curve : FCurve :=
  {| rna_path := "location"; array_index := 0; totvert := 2;
     bezt := Some [rot_key 1 fzero; rot_key 10 fone] |}.

Definition cube_curves : list FCurve :=
  [loc_curve; rot_curve 0 fzero fzero; rot_curve 1 fzero fzero;
   rot_curve 2 (of_int 3) (of_int (-3))].

Definition cube_channels : list bAnimListElem :=
  [ {| ale_id := Some cube; ale_data := 0%nat |};
    {| ale_id := Some cube; ale_data := 1%nat |};
    {| ale_id := Some cube; ale_data := 2%nat |};
    {| ale_id := Some cube; ale_data := 3%nat |} ].

(** Stand-ins for the rotation library in the samples: the quaternion is
    the Euler triple itself, and in the compatible triple a component
    more than 3 away from the last one is replaced by the last one. *)
Definition sample_eul_to_quat (e : float * float * float) : float * float * float := e.

Definition sample_near (old new : float) : float :=
  if fgt (fabsf (fsub new old)) (of_int 3) then old else new.

Definition sample_unwrap (old new : float * float * float)
    : float * float * float :=
  let '(o0, o1, o2) := old in
  let '(n0, n1, n2) := new in
  (sample_near o0 n0, sample_near o1 n1, sample_near o2 n2).

(** The group of the cube's three rotation curves. *)
Definition cube_group : tEulerFilter :=
  {| euf_id := Some cube; fcurves := (Some 1%nat, Some 2%nat, Some 3%nat);
     euf_rna_path := "rotation_euler" |}.

Definition sample_move (k : BezTriple) (v : float) : BezTriple :=
  {| time := time k; value := v; left_handle := left_handle k;
     right_handle := right_handle k; ipo := ipo k |}.

Definition cube_state (channels : list bAnimListElem) : State :=
  {| context_ok := true; curves := cube_curves; anim_data := channels;
     reports := []; events := [] |}.

End Euler.

(* ====================================================================== *)
(** * Facts about single-precision constants and comparisons *)
(* ====================================================================== *)

Example f_0_0005_nearest : f_0_0005 = fdiv (of_int 5) (of_int 10000).
Proof. reflexivity. Qed.

Example f_0_001_nearest : f_0_001 = fdiv (of_int 1) (of_int 1000).
Proof. reflexivity. Qed.

Example FLT_MAX_bits : FLT_MAX = S754_finite false 16777215 104.
Proof. reflexivity. Qed.

Example to_int_truncates : to_int (fdiv (of_int 7) (of_int 2)) = 3%Z.
Proof. reflexivity. Qed.

(** [x == 0.0f] holds exactly for the two zeros. *)
Lemma feq_zero_inv (x : float) :
  feq x fzero = true -> exists s, x = S754_zero s.
Proof.
  destruct x as [s | s | | s m e]; cbn; try discriminate.
  - intros _. now exists s.
  - destruct s; discriminate.
  - destruct s; discriminate.
Qed.

Lemma feq_zero_square (x : float) :
  feq x fzero = true -> feq (fmul x x) fzero = true.
Proof.
  intros Hx. destruct (feq_zero_inv x Hx) as [s ->]. reflexivity.
Qed.

(* ====================================================================== *)
(** * Keyframe range *)
(* ====================================================================== *)

Section ExtentsFacts.

Import Extents.

Example f_0_0001_nearest : f_0_0001 = fdiv (of_int 1) (of_int 10000).
Proof. reflexivity. Qed.

Example flat_raw :
  raw_extents flat_context all_requested false false
  = ({| xmin := Some fone; xmax := Some fone;
        ymin := Some f_0_0001; ymax := Some f_0_0001 |}, true).
Proof. vm_compute. reflexivity. Qed.

(** Without channels the loop finds no bounds. *)
Lemma raw_extents_found_nonempty ac o sel handles o1 :
  raw_extents ac o sel handles = (o1, true) -> anim_data ac <> [].
Proof.
  unfold raw_extents. intros Hraw Hnil. rewrite Hnil in Hraw.
  cbn in Hraw. discriminate.
Qed.

Lemma widen_x_keeps_y o : ymin (widen_x o) = ymin o /\ ymax (widen_x o) = ymax o.
Proof. unfold widen_x. destruct (degenerate (xmin o) (xmax o)); cbn; auto. Qed.

Lemma widen_y_keeps_x o : xmin (widen_y o) = xmin o /\ xmax (widen_y o) = xmax o.
Proof. unfold widen_y. destruct (degenerate (ymin o) (ymax o)); cbn; auto. Qed.

(** When the loop found bounds, the function
    returns; the returned [ymin] is the computed minimum whatever the
    range; on a degenerate y-range (both given, [fabsf] of the difference
    below [0.001f]) the returned [ymax] is the computed maximum after
    subtracting and then adding [0.0005f] in single precision, and on any
    other y-range it is the computed maximum; a degenerate x-range is
    returned as [xmin - 0.0005f] and [xmax + 0.0005f]. *)
Theorem extents_degenerate_adjustment ac o sel handles o1 :
  raw_extents ac o sel handles = (o1, true) ->
  exists r,
    get_graph_keyframe_extents ac o sel handles = Some r /\
    ymin r = ymin o1 /\
    ymax r = (if degenerate (ymin o1) (ymax o1)
              then (fun b => fadd (fsub b f_0_0005) f_0_0005) <$> ymax o1
              else ymax o1) /\
    (degenerate (xmin o1) (xmax o1) = true ->
     xmin r = (fun a => fsub a f_0_0005) <$> xmin o1 /\
     xmax r = (fun b => fadd b f_0_0005) <$> xmax o1).
Proof.
  intros Hraw.
  pose proof (raw_extents_found_nonempty _ _ _ _ _ Hraw) as Hne.
  unfold get_graph_keyframe_extents.
  destruct (anim_data ac) as [|ale ales] eqn:Hdata; [congruence|].
  rewrite Hraw. eexists. split; [reflexivity|].
  destruct (widen_x_keeps_y o1) as [Hy1 Hy2].
  destruct (widen_y_keeps_x (widen_x o1)) as [Hx1 Hx2].
  split; [|split].
  - unfold widen_y. rewrite Hy1, Hy2.
    destruct (degenerate (ymin o1) (ymax o1)); cbn; congruence.
  - unfold widen_y. rewrite Hy1, Hy2.
    destruct (degenerate (ymin o1) (ymax o1)); cbn; congruence.
  - intros Hdeg. rewrite Hx1, Hx2. unfold widen_x. rewrite Hdeg.
    split; reflexivity.
Qed.

Lemma extents_degenerate_adjustment_witness :
  raw_extents flat_context all_requested false false
  = ({| xmin := Some fone; xmax := Some fone;
        ymin := Some f_0_0001; ymax := Some f_0_0001 |}, true) /\
  exists r,
    get_graph_keyframe_extents flat_context all_requested false false = Some r /\
    ymin r = Some f_0_0001 /\
    ymax r = Some (fadd (fsub f_0_0001 f_0_0005) f_0_0005) /\
    (degenerate (Some fone) (Some fone) = true ->
     xmin r = Some (fsub fone f_0_0005) /\ xmax r = Some (fadd fone f_0_0005)).
Proof.
  split; [vm_compute; reflexivity|].
  apply (extents_degenerate_adjustment flat_context all_requested false false
           {| xmin := Some fone; xmax := Some fone;
              ymin := Some f_0_0001; ymax := Some f_0_0001 |}).
  vm_compute; reflexivity.
Defined.

(** Subtracting and adding [0.0005f] need not cancel: one channel whose
    keys all have the value [0.0001f] gives a degenerate y-range, and the
    returned [ymax] is not the computed maximum but the next float above
    it. *)
Lemma extents_ymax_not_unchanged :
  let raw := raw_extents flat_context all_requested false false in
  snd raw = true /\
  degenerate (ymin (fst raw)) (ymax (fst raw)) = true /\
  ymax (fst raw) = Some (S754_finite false 13743895 (-37)) /\
  (ymax <$> get_graph_keyframe_extents flat_context all_requested false false)
    = Some (Some (S754_finite false 13743896 (-37))) /\
  (ymax <$> get_graph_keyframe_extents flat_context all_requested false false)
    <> Some (ymax (fst raw)) /\
  flt (S754_finite false 13743895 (-37)) (S754_finite false 13743896 (-37)) = true.
Proof.
  vm_compute. repeat split; try reflexivity. discriminate.
Qed.

(** C9, the y branch at concrete inputs.  One channel with a single key
    at frame 1 and value 1 has both ranges degenerate.  The x-range is
    returned widened on both sides, [1 - 0.0005f] to [1 + 0.0005f]; the
    y-range is returned of zero height, 1 to 1: the minimum is not
    lowered, and the maximum, lowered and raised again, is back where it
    was.  With the value 2^-47 the maximum comes back as 0, below the
    minimum. *)
Lemma extents_degenerate_y_not_widened :
  get_graph_keyframe_extents (single_key_context fone) all_requested false false
  = Some {| xmin := Some (fsub fone f_0_0005);
            xmax := Some (fadd fone f_0_0005);
            ymin := Some fone; ymax := Some fone |} /\
  flt (fsub fone f_0_0005) fone = true /\
  flt fone (fadd fone f_0_0005) = true /\
  degenerate (Some fone) (Some fone) = true /\
  get_graph_keyframe_extents (single_key_context f_2_pow_m47) all_requested
    false false
  = Some {| xmin := Some (fsub fone f_0_0005);
            xmax := Some (fadd fone f_0_0005);
            ymin := Some f_2_pow_m47; ymax := Some fzero |} /\
  flt fzero f_2_pow_m47 = true.
Proof. vm_compute. repeat split; reflexivity. Qed.

End ExtentsFacts.

(* ====================================================================== *)
(** * Triangulate node *)
(* ====================================================================== *)

Section TriangulateFacts.

Import Triangulate.

Context {Mesh : Type} (triangulate_mesh : Mesh -> Z -> Z -> Z -> Z -> Mesh).

(** C10.  The node calls [triangulate_mesh] at most once; when the input
    geometry is present and carries a mesh, the single call has quad method
    3, n-gon method 0, flag 0 and minimum vertices
    max("Minimum Vertices", 4), which is at least 4, and the output holds
    the returned mesh; when the geometry is absent or has no mesh, the
    output geometry is empty and no call is made. *)
Theorem triangulate_min_vertices_clamped (inputs : Inputs Mesh) :
  let v := in_Minimum_Vertices inputs in
  let '(geometry_out, calls) := geo_triangulate_exec triangulate_mesh inputs in
  match in_Geometry inputs ≫= mesh_get_for_read with
  | Some mesh_in =>
      calls = [ {| call_mesh := mesh_in; call_quad_method := 3;
                   call_ngon_method := 0; call_min_vertices := Z.max v 4;
                   call_flag := 0 |} ] /\
      (4 <= Z.max v 4)%Z /\
      geometry_out
      = Some {| mesh_get_for_read :=
                  Some (triangulate_mesh mesh_in 3 0 (Z.max v 4) 0)%Z |}
  | None => geometry_out = None /\ calls = []
  end.
Proof.
  unfold geo_triangulate_exec.
  destruct inputs as [[[[m|]]|] v]; cbn; repeat split; lia.
Qed.

End TriangulateFacts.

(* ====================================================================== *)
(** * Decimate: the loops *)
(* ====================================================================== *)

Section LoopFacts.

Import Decimate.

Context (H : Host).

Implicit Types (st : State (NumInput H)) (cs pre suf : list FCurve) (fcu : FCurve).

Lemma put_id st : put H (curves st) (events st) st = st.
Proof. destruct st; reflexivity. Qed.

Lemma lookup_at_length pre fcu suf : (pre ++ fcu :: suf) !! length pre = Some fcu.
Proof. now apply list_lookup_middle. Qed.

Lemma insert_at_length pre fcu fcu' suf :
  <[length pre := fcu']> (pre ++ fcu :: suf) = pre ++ fcu' :: suf.
Proof.
  rewrite insert_app_r_alt by lia.
  replace (length pre - length pre)%nat with 0%nat by lia. reflexivity.
Qed.

Lemma snoc_length pre fcu : length (pre ++ [fcu]) = S (length pre).
Proof. rewrite length_app. cbn. lia. Qed.

Lemma snoc_app pre fcu suf : (pre ++ [fcu]) ++ suf = pre ++ fcu :: suf.
Proof. now rewrite <- app_assoc. Qed.

Lemma decimated_curve_unlisted r e fcu :
  curve_listed H (flag fcu) = false -> decimated_curve H r e fcu = fcu.
Proof. unfold decimated_curve. now intros ->. Qed.

Lemma skip_report_unlisted r e fcu :
  curve_listed H (flag fcu) = false -> skip_report H r e fcu = [].
Proof. unfold skip_report, unsupported. now intros ->. Qed.

(** One turn of the batch loop on the channel at position [length pre]. *)
Lemma decimate_step_at r e pre fcu suf st :
  curves st = pre ++ fcu :: suf ->
  curve_listed H (flag fcu) = true ->
  decimate_step H r e st (length pre)
  = put H (pre ++ decimated_curve H r e fcu :: suf)
          (events st ++ skip_report H r e fcu) st.
Proof.
  intros Hcs Hl. unfold decimate_step.
  rewrite Hcs, lookup_at_length.
  unfold decimated_curve, skip_report, unsupported. rewrite Hl.
  destruct st as [cs ok rg md rr rm cd evs]. cbn in Hcs. subst cs.
  destruct (decimate_fcurve H fcu r e) as [[] fcu']; cbn;
    unfold put, emit, set_curves; cbn;
    rewrite insert_at_length, ?app_nil_r; reflexivity.
Qed.

(** The batch loop, seen from the position [length pre] on. *)
Lemma decimate_fold_from r e suf : forall pre st,
  curves st = pre ++ suf ->
  fold_left (decimate_step H r e) (filter_from H (length pre) suf) st
  = put H (pre ++ map (decimated_curve H r e) suf)
          (events st ++ flat_map (skip_report H r e) suf) st.
Proof.
  induction suf as [|fcu suf IH]; intros pre st Hcs; cbn [filter_from map flat_map].
  - cbn [fold_left]. rewrite <- Hcs, app_nil_r. symmetry. apply put_id.
  - destruct (curve_listed H (flag fcu)) eqn:Hl.
    + cbn [fold_left]. rewrite (decimate_step_at r e pre fcu suf st Hcs Hl).
      rewrite <- (snoc_length pre (decimated_curve H r e fcu)).
      rewrite IH by (cbn; now rewrite snoc_app).
      unfold put; cbn. now rewrite snoc_app, <- app_assoc.
    + rewrite <- (snoc_length pre fcu).
      rewrite IH by (now rewrite snoc_app).
      rewrite snoc_app.
      now rewrite (decimated_curve_unlisted r e fcu Hl), (skip_report_unlisted r e fcu Hl).
Qed.

Lemma decimate_graph_keys_eq r e st :
  decimate_graph_keys H r e st
  = put H (map (decimated_curve H r e) (curves st))
          (events st ++ flat_map (skip_report H r e) (curves st)
             ++ [ANIM_animdata_update (ANIM_animdata_filter H (curves st))]) st.
Proof.
  unfold decimate_graph_keys, ANIM_animdata_filter.
  pose proof (decimate_fold_from r e (curves st) [] st eq_refl) as E.
  cbn [length app] in E. cbv zeta. rewrite E.
  unfold emit, put. cbn. now rewrite <- app_assoc.
Qed.

Lemma skip_report_repeat r e cs :
  flat_map (skip_report H r e) cs
  = repeat (WM_report RPT_WARNING skip_message)
           (length (filter (fun fcu => unsupported H r e fcu = true) cs)).
Proof.
  induction cs as [|fcu cs IH]; [reflexivity|].
  cbn [flat_map]. rewrite filter_cons. unfold skip_report at 1.
  destruct (decide (unsupported H r e fcu = true)) as [Hu|Hu].
  - rewrite Hu. cbn. now rewrite IH.
  - apply not_true_is_false in Hu. rewrite Hu. cbn. exact IH.
Qed.

(** ** The byte count *)

Lemma int_wrap_fits (z : Z) : (0 <= z <= INT_MAX)%Z -> int_wrap z = z.
Proof.
  unfold int_wrap, INT_MAX. intros Hz.
  rewrite Z.mod_small by lia. lia.
Qed.

(** Without overflow, and with the keys there, the copy is the first
    [n] keys. *)
Lemma memcpy_fits (n : Z) (src : list BezTriple) :
  (0 <= Z.pos (sizeof_BezTriple H) * n <= INT_MAX)%Z ->
  (n <= Z.of_nat (length src))%Z ->
  memcpy H (arr_size H n) src = Some (first_keys n src).
Proof.
  intros Hfit Hlen. unfold memcpy, arr_size, first_keys.
  rewrite (int_wrap_fits _ Hfit).
  destruct (Z.ltb_spec (Z.pos (sizeof_BezTriple H) * n)%Z 0%Z) as [Hneg|_]; [lia|].
  rewrite Z.mul_comm, Z.div_mul by lia.
  assert (0 <= n)%Z by nia.
  destruct (Nat.ltb_spec (length src) (Z.to_nat n)) as [Hlt|_]; [lia|].
  reflexivity.
Qed.

Lemma copy_of_fits fcu :
  fcu_wf fcu -> arr_size_fits H fcu -> Forall (copy_fits H) (copy_of H fcu).
Proof.
  unfold fcu_wf, arr_size_fits, eligible, copy_of. intros Hwf Hfit.
  destruct (curve_listed H (flag fcu)); [|constructor].
  destruct (bezt fcu) as [b|] eqn:Hb; [|constructor].
  specialize (Hwf b eq_refl).
  rewrite bool_decide_eq_true_2 in Hfit by discriminate.
  specialize (Hfit eq_refl).
  constructor; [|constructor]. split; cbn [tot_vert copy_bezt]; [exact Hfit|].
  unfold first_keys. rewrite Hwf, Nat2Z.id, firstn_all. lia.
Qed.

Lemma snapshot_fits cs :
  Forall fcu_wf cs -> Forall (arr_size_fits H) cs ->
  Forall (copy_fits H) (snapshot_of H cs).
Proof.
  intros Hwf. induction Hwf as [|fcu cs Hw _ IH]; intros Hfit; [constructor|].
  apply Forall_cons in Hfit as [Hf Hfit].
  unfold snapshot_of. cbn [flat_map]. apply Forall_app. split.
  - now apply copy_of_fits.
  - now apply IH.
Qed.

(** The copy loop. *)
Lemma copy_loop_from suf : forall pre acc,
  Forall fcu_wf suf -> Forall (arr_size_fits H) suf ->
  copy_loop H (filter_from H (length pre) suf) (pre ++ suf) acc
  = Some (acc ++ snapshot_of H suf).
Proof.
  induction suf as [|fcu suf IH]; intros pre acc Hwf Hfit; cbn [filter_from].
  - cbn. now rewrite app_nil_r.
  - apply Forall_cons in Hwf as [Hw Hwf]. apply Forall_cons in Hfit as [Hf Hfit].
    unfold snapshot_of. cbn [flat_map]. fold (snapshot_of H suf).
    unfold copy_of.
    destruct (curve_listed H (flag fcu)) eqn:Hl.
    + cbn [copy_loop]. rewrite lookup_at_length.
      rewrite <- (snoc_length pre fcu), <- (snoc_app pre fcu suf).
      destruct (bezt fcu) as [b|] eqn:Hb.
      * unfold arr_size_fits, eligible in Hf. rewrite Hl, Hb in Hf.
        rewrite bool_decide_eq_true_2 in Hf by discriminate.
        rewrite (memcpy_fits _ b (Hf eq_refl)) by (rewrite (Hw b Hb); lia).
        cbn [mbind option_bind]. rewrite IH by assumption.
        now rewrite <- app_assoc.
      * now rewrite IH.
    + rewrite <- (snoc_length pre fcu), <- (snoc_app pre fcu suf).
      now rewrite IH.
Qed.

Lemma copy_loop_eq cs :
  Forall fcu_wf cs -> Forall (arr_size_fits H) cs ->
  copy_loop H (ANIM_animdata_filter H cs) cs [] = Some (snapshot_of H cs).
Proof. exact (copy_loop_from cs [] []). Qed.

(** Nothing is copied when no curve is listed with a keyframe array. *)
Lemma copy_loop_none suf : forall pre acc,
  Forall (fun fcu => eligible H fcu = false) suf ->
  copy_loop H (filter_from H (length pre) suf) (pre ++ suf) acc = Some acc.
Proof.
  induction suf as [|fcu suf IH]; intros pre acc Hnone; cbn [filter_from].
  - reflexivity.
  - apply Forall_cons in Hnone as [Hn Hnone]. unfold eligible in Hn.
    destruct (curve_listed H (flag fcu)) eqn:Hl; cbn [andb] in Hn.
    + cbn [copy_loop]. rewrite lookup_at_length.
      rewrite <- (snoc_length pre fcu), <- (snoc_app pre fcu suf).
      destruct (bezt fcu) as [b|] eqn:Hb.
      * rewrite bool_decide_eq_true_2 in Hn by discriminate. discriminate.
      * now apply IH.
    + rewrite <- (snoc_length pre fcu), <- (snoc_app pre fcu suf).
      now apply IH.
Qed.

(** The restore loop. *)
Lemma reset_loop_from suf : forall pre links,
  Forall (copy_fits H) links ->
  reset_loop H (filter_from H (length pre) suf) links (pre ++ suf)
  = (fun out => pre ++ out) <$> reset_pos H suf links.
Proof.
  induction suf as [|fcu suf IH]; intros pre links Hfit;
    cbn [filter_from reset_pos].
  - reflexivity.
  - unfold eligible.
    destruct (curve_listed H (flag fcu)) eqn:Hl; cbn [andb].
    + cbn [reset_loop]. rewrite lookup_at_length.
      destruct (bezt fcu) as [b|] eqn:Hb.
      * rewrite bool_decide_eq_true_2 by discriminate.
        destruct links as [|data next]; [reflexivity|].
        apply Forall_cons in Hfit as [[Hd1 Hd2] Hfit].
        rewrite (memcpy_fits _ _ Hd1 Hd2). cbn [mbind option_bind].
        rewrite insert_at_length.
        match goal with |- context [pre ++ ?f :: suf] =>
          rewrite <- (snoc_app pre f suf), <- (snoc_length pre f), IH
            by assumption end.
        destruct (reset_pos H suf next); cbn; [|reflexivity].
        now rewrite snoc_app.
      * rewrite bool_decide_eq_false_2 by (intros Hn; now apply Hn).
        rewrite <- (snoc_app pre fcu suf), <- (snoc_length pre fcu), IH
          by assumption.
        destruct (reset_pos H suf links); cbn; [|reflexivity].
        now rewrite snoc_app.
    + rewrite <- (snoc_app pre fcu suf), <- (snoc_length pre fcu), IH
        by assumption.
      destruct (reset_pos H suf links); cbn; [|reflexivity].
      now rewrite snoc_app.
Qed.

Lemma reset_loop_eq cs links :
  Forall (copy_fits H) links ->
  reset_loop H (ANIM_animdata_filter H cs) links cs = reset_pos H cs links.
Proof.
  intros Hfit.
  pose proof (reset_loop_from cs [] links Hfit) as E. cbn [length app] in E.
  unfold ANIM_animdata_filter. rewrite E.
  now destruct (reset_pos H cs links).
Qed.

End LoopFacts.

(* ====================================================================== *)
(** * Decimate: the interactive session *)
(* ====================================================================== *)

Section SessionFacts.

Import Decimate.

Context (H : Host).

Implicit Types (st : State (NumInput H)) (cs : list FCurve) (a b fcu : FCurve).

Lemma session_rel_refl a : session_rel H a a.
Proof. unfold session_rel. tauto. Qed.

Lemma session_rel_start cs : Forall2 (session_rel H) cs cs.
Proof. apply Forall_Forall2_diag, Forall_forall. intros; apply session_rel_refl. Qed.

Lemma eligible_rel a b : session_rel H a b -> eligible H b = eligible H a.
Proof.
  intros (Hf & Hb & _). unfold eligible. rewrite Hf. f_equal.
  apply bool_decide_ext. tauto.
Qed.

Lemma eligible_true a :
  eligible H a = true ->
  curve_listed H (flag a) = true /\ exists pts, bezt a = Some pts.
Proof.
  unfold eligible. intros [Hl Hb]%andb_prop. split; [exact Hl|].
  apply bool_decide_eq_true in Hb. destruct (bezt a) as [pts|]; [eauto|tauto].
Qed.

Lemma eligible_false a :
  eligible H a = false -> copy_of H a = [] /\ restored_curve H a = a.
Proof.
  unfold eligible, copy_of, restored_curve.
  destruct (curve_listed H (flag a)); cbn [andb]; [|auto].
  destruct (bezt a); [|auto].
  rewrite bool_decide_eq_true_2 by discriminate. discriminate.
Qed.

(** Restoring from the snapshot of [cs0] gives the same curves from every
    state of the session. *)
Lemma reset_pos_snapshot cs0 cs :
  Forall2 (session_rel H) cs0 cs ->
  reset_pos H cs (snapshot_of H cs0) = Some (map (restored_curve H) cs0).
Proof.
  induction 1 as [|a b cs0 cs Hab _ IH]; [reflexivity|].
  cbn [reset_pos map]. unfold snapshot_of. cbn [flat_map].
  fold (snapshot_of H cs0). rewrite (eligible_rel a b Hab).
  destruct (eligible H a) eqn:He.
  - destruct (eligible_true a He) as (Hl & pts & Hpts).
    unfold copy_of, restored_curve. rewrite Hl, Hpts. cbn [app].
    rewrite IH. cbn. destruct Hab as (-> & _). reflexivity.
  - destruct (eligible_false a He) as (-> & ->). cbn [app].
    rewrite IH. cbn. destruct Hab as (_ & _ & ->); auto.
Qed.

Lemma restored_curve_wf a : fcu_wf a -> restored_curve H a = a.
Proof.
  unfold fcu_wf, restored_curve. intros Hwf.
  destruct (curve_listed H (flag a)); [|reflexivity].
  destruct a as [[pts|] tv fl]; cbn in *; [|reflexivity].
  specialize (Hwf pts eq_refl). subst tv. unfold first_keys.
  rewrite Nat2Z.id, !firstn_all. reflexivity.
Qed.

Lemma restored_all_wf cs : Forall fcu_wf cs -> map (restored_curve H) cs = cs.
Proof.
  induction 1 as [|a cs Ha _ IH]; [reflexivity|].
  cbn. now rewrite IH, restored_curve_wf.
Qed.

Lemma restored_rel a : session_rel H a (restored_curve H a).
Proof.
  destruct (eligible H a) eqn:He.
  - destruct (eligible_true a He) as (Hl & pts & Hpts).
    unfold restored_curve. rewrite Hl, Hpts. unfold session_rel. cbn.
    rewrite Hpts. repeat split; try discriminate. congruence.
  - destruct (eligible_false a He) as (_ & ->). apply session_rel_refl.
Qed.

Lemma decimated_rel r e a b :
  decimator_keeps_shape H ->
  session_rel H a b -> session_rel H a (decimated_curve H r e b).
Proof.
  intros Hk (Hf & Hb & Hne). unfold decimated_curve.
  destruct (curve_listed H (flag b)) eqn:Hl; [|unfold session_rel; tauto].
  destruct (Hk b r e) as (Kf & Kb & Kn).
  unfold session_rel. repeat split.
  - congruence.
  - intros Ha. rewrite Kb; tauto.
  - intros Hd. destruct (bezt b) eqn:Eb; [|tauto].
    exfalso. apply Kn; [discriminate | exact Hd].
  - intros He. rewrite (Hne He) in *.
    apply Kb. unfold eligible in He. rewrite Hl in He. cbn in He.
    apply bool_decide_eq_false in He. destruct (bezt a); [|reflexivity].
    exfalso. apply He. discriminate.
Qed.

Lemma decimated_restored_rel r e cs0 :
  decimator_keeps_shape H ->
  Forall2 (session_rel H) cs0
    (map (decimated_curve H r e) (map (restored_curve H) cs0)).
Proof.
  intros Hk. induction cs0 as [|a cs0 IH]; cbn; constructor; [|exact IH].
  apply decimated_rel; [exact Hk | apply restored_rel].
Qed.

(** ** The update step *)

Lemma status_header_fields dgo st :
  let st' := decimate_draw_status_header H dgo st in
  curves st' = curves st /\ customdata st' = customdata st /\
  remove_ratio st' = remove_ratio st.
Proof. unfold decimate_draw_status_header. destruct (hasNumInput H (num dgo)); cbn; auto. Qed.

Lemma reset_bezts_active cs0 dgo st :
  bezt_arr_list dgo = snapshot_of H cs0 ->
  Forall (copy_fits H) (bezt_arr_list dgo) ->
  Forall2 (session_rel H) cs0 (curves st) ->
  decimate_reset_bezts H dgo st
  = Some (set_curves H (map (restored_curve H) cs0) st).
Proof.
  intros Hsnap Hfit Hrel. unfold decimate_reset_bezts.
  rewrite (reset_loop_eq H _ _ Hfit), Hsnap,
    (reset_pos_snapshot cs0 (curves st) Hrel).
  reflexivity.
Qed.

(** From every state of a session, an update succeeds and leaves the
    curves decimated from the restored snapshot with the stored ratio. *)
Lemma modal_update_active cs0 st :
  decimator_keeps_shape H ->
  active H cs0 st ->
  exists st',
    graphkeys_decimate_modal_update H st = Some st' /\
    curves st' = map (decimated_curve H (remove_ratio st) FLT_MAX)
                     (map (restored_curve H) cs0) /\
    customdata st' = customdata st /\
    active H cs0 st'.
Proof.
  intros Hk (dgo & Hcd & Hsnap & Hfit & Hrel).
  unfold graphkeys_decimate_modal_update. rewrite Hcd. cbn [mbind option_bind].
  destruct (status_header_fields dgo st) as (Hc & Hd & Hr).
  rewrite (reset_bezts_active cs0 dgo _ Hsnap Hfit) by (now rewrite Hc).
  cbn [mbind option_bind]. rewrite decimate_graph_keys_eq.
  eexists. split; [reflexivity|]. cbn. rewrite Hr, Hd.
  repeat split; [exact Hcd|].
  exists dgo. cbn. rewrite Hd. repeat split; auto.
  now apply decimated_restored_rel.
Qed.

Lemma modal_update_customdata st st' :
  graphkeys_decimate_modal_update H st = Some st' ->
  customdata st' = customdata st.
Proof.
  unfold graphkeys_decimate_modal_update, decimate_reset_bezts.
  destruct (customdata st) as [dgo|] eqn:Hcd; [|discriminate].
  cbn [mbind option_bind].
  destruct (status_header_fields dgo st) as (_ & Hd & _).
  destruct (reset_loop _ _ _ _); [|discriminate]. cbn [mbind option_bind].
  rewrite decimate_graph_keys_eq. intros [= <-]. cbn. congruence.
Qed.

Lemma modal_update_ratio st st' :
  graphkeys_decimate_modal_update H st = Some st' ->
  remove_ratio st' = remove_ratio st.
Proof.
  unfold graphkeys_decimate_modal_update, decimate_reset_bezts.
  destruct (customdata st) as [dgo|] eqn:Hcd; [|discriminate].
  cbn [mbind option_bind].
  destruct (status_header_fields dgo st) as (_ & _ & Hr).
  destruct (reset_loop _ _ _ _); [|discriminate]. cbn [mbind option_bind].
  rewrite decimate_graph_keys_eq. intros [= <-]. cbn. congruence.
Qed.

Lemma set_ratio_active cs0 p st :
  active H cs0 st -> active H cs0 (RNA_property_float_set H p st).
Proof. intros (dgo & ? & ? & ? & ?). exists dgo. cbn. auto. Qed.

Lemma update_active cs0 p st :
  decimator_keeps_shape H ->
  active H cs0 st ->
  exists st',
    update H p st = Some st' /\
    curves st' = map (decimated_curve H (clamp_ratio p) FLT_MAX)
                     (map (restored_curve H) cs0) /\
    active H cs0 st'.
Proof.
  intros Hk Hact. unfold update.
  destruct (modal_update_active cs0 _ Hk (set_ratio_active cs0 p st Hact))
    as (st' & E & Hc & _ & Hact').
  exists st'. auto.
Qed.

Lemma updates_active cs0 ps : forall st,
  decimator_keeps_shape H ->
  active H cs0 st ->
  exists st', updates H ps st = Some st' /\ active H cs0 st'.
Proof.
  induction ps as [|p ps IH]; intros st Hk Hact; cbn [updates].
  - eauto.
  - destruct (update_active cs0 p st Hk Hact) as (st1 & -> & _ & Hact1).
    cbn [mbind option_bind]. now apply IH.
Qed.

Lemma updates_snoc ps p st :
  updates H (ps ++ [p]) st = updates H ps st ≫= update H p.
Proof.
  revert st. induction ps as [|q ps IH]; intros st; cbn [app updates].
  - cbn [mbind option_bind]. destruct (update H p st); reflexivity.
  - destruct (update H q st) as [st1|]; cbn [mbind option_bind]; [apply IH|reflexivity].
Qed.

(** ** Starting a session *)

Lemma invoke_running st0 ev st1 :
  Forall fcu_wf (curves st0) ->
  Forall (arr_size_fits H) (curves st0) ->
  graphkeys_decimate_invoke H st0 ev = Some (OPERATOR_RUNNING_MODAL, st1) ->
  curves st1 = curves st0 /\ active H (curves st0) st1.
Proof.
  intros Hwf Hfit.
  unfold graphkeys_decimate_invoke. cbn [context_ok set_customdata emit].
  destruct (context_ok st0); cbn [negb]; [|discriminate].
  set (dgo0 := {| bezt_arr_list := []; num := num_calloc H |}).
  set (stA := decimate_draw_status_header H dgo0 _).
  assert (HA : curves stA = curves st0).
  { subst stA. now destruct (status_header_fields dgo0
      (decimate_mouse_update_percentage H
         (set_customdata H (Some dgo0) (emit H WM_cursor_modal_set st0)) ev))
      as (-> & _). }
  change (bezt_arr_list dgo0) with (@nil tBeztCopyData).
  rewrite HA, (copy_loop_eq H _ Hwf Hfit).
  cbn [mbind option_bind bezt_arr_list].
  pose proof (snapshot_fits H _ Hwf Hfit) as Hsf.
  destruct (snapshot_of H (curves st0)) as [|c l] eqn:Hs; [discriminate|].
  intros [= <-]. cbn. split; [exact HA|].
  eexists. cbn. repeat split; [now rewrite Hs | exact Hsf|].
  rewrite HA. apply session_rel_start.
Qed.

End SessionFacts.

Section ModalFacts.

Import Decimate.

Context (H : Host).

Implicit Types (st : State (NumInput H)) (ev : wmEvent).

Lemma set_num_active cs0 st dgo n :
  customdata st = Some dgo ->
  active H cs0 st ->
  active H cs0
    (set_customdata H (Some {| bezt_arr_list := bezt_arr_list dgo; num := n |}) st).
Proof.
  intros Hcd (dgo' & Hcd' & Hsnap & Hfit & Hrel).
  assert (dgo' = dgo) as -> by congruence.
  eexists. cbn. repeat split; auto.
Qed.

Lemma mouse_update_is_set st ev :
  exists p, decimate_mouse_update_percentage H st ev = RNA_property_float_set H p st.
Proof. unfold decimate_mouse_update_percentage. eauto. Qed.

(** One event of a running session: the callback returns, and if it keeps
    running modal the session is still an active one on the same
    snapshot. *)
Lemma modal_step_active cs0 st ev :
  decimator_keeps_shape H ->
  active H cs0 st ->
  exists ret st',
    graphkeys_decimate_modal H st ev = Some (ret, st') /\
    (still_modal ret = true -> active H cs0 st').
Proof.
  intros Hk Hact. pose proof Hact as (dgo & Hcd & Hsnap & Hfit & Hrel).
  unfold graphkeys_decimate_modal. rewrite Hcd. cbn [mbind option_bind].
  destruct (ev_type ev) eqn:Ht.
  1-3: destruct (ev_val ev); eexists _, _; (split; [reflexivity|]);
       first [discriminate | intros _; exact Hact].
  1-2: destruct (ev_val ev);
       try (eexists _, _; (split; [reflexivity|]); intros _; exact Hact);
       rewrite (reset_bezts_active H cs0 dgo st Hsnap Hfit Hrel);
       cbn [mbind option_bind]; eexists _, _; (split; [reflexivity|]); discriminate.
  - destruct (hasNumInput H (num dgo)).
    + eexists _, _. split; [reflexivity|]. intros _; exact Hact.
    + destruct (mouse_update_is_set st ev) as (p & ->).
      destruct (update_active H cs0 p st Hk Hact) as (st' & E & _ & Hact').
      unfold update in E. rewrite E. cbn [mbind option_bind].
      eexists _, _. split; [reflexivity|]. intros _; exact Hact'.
  - destruct (ev_val ev);
      try (eexists _, _; (split; [reflexivity|]); intros _; exact Hact).
    destruct (handleNumInput H (num dgo) ev) as [handled n].
    pose proof (set_num_active cs0 st dgo n Hcd Hact) as Hact1.
    destruct handled.
    + destruct (applyNumInput H n _) as [v n'].
      assert (Hact2 : active H cs0
                (set_customdata H
                   (Some {| bezt_arr_list := bezt_arr_list dgo; num := n' |})
                   (set_customdata H
                      (Some {| bezt_arr_list := bezt_arr_list dgo; num := n |}) st))).
      { apply (set_num_active cs0 _
                 {| bezt_arr_list := bezt_arr_list dgo; num := n |} n');
          [reflexivity | exact Hact1]. }
      match goal with |- context [RNA_property_float_set H ?p ?s] =>
        destruct (update_active H cs0 p s Hk) as (st' & E & _ & Hact')
      end.
      { exact Hact2. }
      unfold update in E. rewrite E. cbn [mbind option_bind].
      eexists _, _. split; [reflexivity|]. intros _; exact Hact'.
    + eexists _, _. split; [reflexivity|]. intros _; exact Hact1.
Qed.

Lemma modal_run_active cs0 evs : forall st,
  decimator_keeps_shape H ->
  active H cs0 st ->
  exists ret st',
    modal_run H evs st = Some (ret, st') /\
    (still_modal ret = true -> active H cs0 st').
Proof.
  induction evs as [|ev evs IH]; intros st Hk Hact; cbn [modal_run].
  - eexists _, _. split; [reflexivity|]. intros _; exact Hact.
  - destruct (modal_step_active cs0 st ev Hk Hact) as (ret & st' & -> & Hnext).
    cbn [mbind option_bind]. destruct (still_modal ret) eqn:Hm.
    + apply IH; auto.
    + eexists _, _. split; [reflexivity|]. rewrite Hm. discriminate.
Qed.

(** A cancelling event in an active session. *)
Lemma modal_cancel_active cs0 st ev :
  active H cs0 st ->
  is_cancel ev = true ->
  exists st',
    graphkeys_decimate_modal H st ev = Some (OPERATOR_CANCELLED, st') /\
    curves st' = map (restored_curve H) cs0 /\
    customdata st' = None.
Proof.
  intros (dgo & Hcd & Hsnap & Hfit & Hrel) Hc.
  unfold graphkeys_decimate_modal. rewrite Hcd. cbn [mbind option_bind].
  unfold is_cancel in Hc.
  destruct (ev_type ev); try discriminate;
    destruct (ev_val ev); try discriminate;
    rewrite (reset_bezts_active H cs0 dgo st Hsnap Hfit Hrel);
    cbn [mbind option_bind]; eexists; (split; [reflexivity|]);
    unfold decimate_exit; cbn; rewrite Hcd; cbn; auto.
Qed.

Lemma modal_mousemove_engaged st ev :
  engaged H st -> is_mousemove ev = true ->
  graphkeys_decimate_modal H st ev = Some (OPERATOR_RUNNING_MODAL, st).
Proof.
  intros (dgo & Hcd & Hn) Hm. unfold graphkeys_decimate_modal.
  rewrite Hcd. cbn [mbind option_bind]. unfold is_mousemove in Hm.
  destruct (ev_type ev); try discriminate. now rewrite Hn.
Qed.

Lemma modal_step_engaged st ev ret st' :
  numinput_stays_engaged H ->
  engaged H st ->
  graphkeys_decimate_modal H st ev = Some (ret, st') ->
  still_modal ret = true ->
  engaged H st'.
Proof.
  intros (Hh & Ha) Heng. pose proof Heng as (dgo & Hcd & Hn).
  unfold graphkeys_decimate_modal. rewrite Hcd. cbn [mbind option_bind].
  destruct (ev_type ev).
  1-3: destruct (ev_val ev); intros [= <- <-]; first [discriminate | intros _; exact Heng].
  1-2: destruct (ev_val ev); try (intros [= <- <-] _; exact Heng);
       destruct (decimate_reset_bezts H dgo st); cbn [mbind option_bind];
       [intros [= <- <-]; discriminate | discriminate].
  - rewrite Hn. intros [= <- <-] _; exact Heng.
  - destruct (ev_val ev); try (intros [= <- <-] _; exact Heng).
    pose proof (Hh (num dgo) ev Hn) as Hn1.
    destruct (handleNumInput H (num dgo) ev) as [handled n]. cbn [snd] in Hn1.
    destruct handled.
    + match goal with |- context [applyNumInput H n ?v] =>
        pose proof (Ha n v Hn1) as Hn2; destruct (applyNumInput H n v) as [v' n']
      end.
      cbn [snd] in Hn2.
      match goal with |- context [graphkeys_decimate_modal_update H ?s] =>
        destruct (graphkeys_decimate_modal_update H s) as [st2|] eqn:E
      end; cbn [mbind option_bind]; [|discriminate].
      intros [= <- <-] _. apply modal_update_customdata in E. cbn in E.
      eexists. split; [exact E|]. exact Hn2.
    + intros [= <- <-] _. eexists. split; [reflexivity|]. exact Hn1.
Qed.

Lemma modal_run_skips_mousemove evs : forall st,
  numinput_stays_engaged H ->
  engaged H st ->
  modal_run H evs st
  = modal_run H (filter (fun ev => is_mousemove ev = false) evs) st.
Proof.
  induction evs as [|ev evs IH]; intros st Hs Heng; [reflexivity|].
  rewrite filter_cons. destruct (decide (is_mousemove ev = false)) as [Hm|Hm].
  - cbn [modal_run].
    destruct (graphkeys_decimate_modal H st ev) as [[ret st']|] eqn:E;
      cbn [mbind option_bind]; [|reflexivity].
    destruct (still_modal ret) eqn:Hr; [|reflexivity].
    apply IH; [exact Hs|]. eapply modal_step_engaged; eauto.
  - apply not_false_is_true in Hm. cbn [modal_run].
    rewrite (modal_mousemove_engaged st ev Heng Hm). cbn.
    now apply IH.
Qed.

End ModalFacts.

(* ====================================================================== *)
(** * The decimator *)
(* ====================================================================== *)

Section DecimatorFacts.

Import Decimate.

Variable removal_cost : list BezTriple -> list BezTriple -> nat -> float.

Implicit Types (cur orig pts : list BezTriple).

(** The straight line of the scenario: half of five points is two
    removals, the leftmost interior point each time. *)
Example decimate_line5_half :
  map (fun b => to_int (time b)) (decimate_points zero_cost line5 f_half FLT_MAX)
  = [0; 3; 4]%Z.
Proof. vm_compute. reflexivity. Qed.

Lemma cheapest_among orig cur cands : forall best i c,
  cheapest removal_cost orig cur cands best = Some (i, c) ->
  In i cands \/ exists c', best = Some (i, c').
Proof.
  induction cands as [|j cands IH]; intros best i c; cbn [cheapest].
  - intros ->. eauto.
  - destruct best as [[k ck]|].
    + destruct (flt _ ck); intros Hc; apply IH in Hc as [Hin|(c' & Hb)].
      * left; now right.
      * injection Hb as <- _. left; now left.
      * left; now right.
      * right; eauto.
    + intros Hc; apply IH in Hc as [Hin|(c' & Hb)].
      * left; now right.
      * injection Hb as <- _. left; now left.
Qed.

Lemma interior_bounds cur i :
  In i (interior cur) -> (1 <= i /\ i + 1 < length cur)%nat.
Proof. unfold interior. rewrite in_seq. lia. Qed.

Lemma delete_interior cur i :
  (1 <= i /\ i + 1 < length cur)%nat ->
  head (delete i cur) = head cur /\
  last (delete i cur) = last cur /\
  (2 <= length (delete i cur))%nat /\
  sublist (delete i cur) cur.
Proof.
  intros [Hi Hn].
  assert (Hlen : length (delete i cur) = (length cur - 1)%nat).
  { apply length_delete, lookup_lt_is_Some. lia. }
  repeat split.
  - rewrite !head_lookup. apply list_lookup_delete_lt. lia.
  - rewrite !last_lookup, Hlen, list_lookup_delete_ge by lia.
    f_equal. lia.
  - lia.
  - apply sublist_delete.
Qed.

(** The decimation loop removes interior points only. *)
Lemma decimate_loop_ends orig fuel : forall cur removed target e,
  let out := decimate_loop removal_cost fuel orig cur removed target e in
  head out = head cur /\ last out = last cur /\
  ((2 <= length cur)%nat -> (2 <= length out)%nat) /\
  sublist out cur.
Proof.
  induction fuel as [|fuel IH]; intros cur removed target e; cbn [decimate_loop].
  - cbv zeta. auto.
  - cbv zeta. destruct (target <=? removed)%nat; [auto|].
    destruct (cheapest removal_cost orig cur (interior cur) None)
      as [[i c]|] eqn:Hc; [|auto].
    destruct (fgt c e); [auto|].
    apply cheapest_among in Hc as [Hin|(c' & Hb)]; [|discriminate].
    apply interior_bounds, delete_interior in Hin as (Hh & Hl & Hn & Hs).
    specialize (IH (delete i cur) (S removed) target e). cbv zeta in IH.
    destruct IH as (IHh & IHl & IHn & IHs).
    repeat split; try congruence; auto.
    etransitivity; eassumption.
Qed.

(** C6.  On a curve with a keyframe array of at least two points the
    decimator succeeds under either policy; the first and the last point of
    its output are the first and the last point of its input, the output
    has at least two points, and it is a subsequence of the input (the
    surviving points are unchanged). *)
Theorem decimate_keeps_endpoints curve policy pts :
  bezt curve = Some pts ->
  (2 <= length pts)%nat ->
  exists out pts',
    decimate removal_cost curve policy = inl out /\
    bezt out = Some pts' /\
    head pts' = head pts /\
    last pts' = last pts /\
    (2 <= length pts')%nat /\
    sublist pts' pts.
Proof.
  intros Hb Hlen. unfold decimate, spec_decimate_fcurve. rewrite Hb.
  destruct policy as [r|e]; eexists _, _; (split; [reflexivity|]);
    cbn [bezt]; (split; [reflexivity|]); unfold decimate_points;
    match goal with |- context [decimate_loop _ ?f ?o ?c ?r ?t ?e] =>
      destruct (decimate_loop_ends o f c r t e) as (Hh & Hl & Hn & Hs)
    end; auto.
Qed.

(** The modelled host meets what the session relies on. *)
Lemma spec_decimator_keeps_shape :
  decimator_keeps_shape (spec_host removal_cost).
Proof.
  intros fcu r e. cbn. unfold spec_decimate_fcurve.
  destruct (bezt fcu) as [pts|] eqn:Hb; cbn; rewrite ?Hb;
    repeat split; congruence.
Qed.

Lemma spec_numinput_stays_engaged :
  numinput_stays_engaged (spec_host removal_cost).
Proof.
  split; cbn.
  - intros n ev Hn. unfold spec_handleNumInput.
    destruct (ev_type ev); try exact Hn.
    destruct (_ && _); [reflexivity | exact Hn].
  - intros n v Hn. exact Hn.
Qed.

End DecimatorFacts.

(* ====================================================================== *)
(** * Decimate: what the operator guarantees *)
(* ====================================================================== *)

Section OperatorFacts.

Import Decimate.

Context (H : Host).

Implicit Types (st : State (NumInput H)) (ev : wmEvent).

(** C1.  In a session started by [graphkeys_decimate_invoke] on curves
    whose recorded lengths are right and whose byte counts fit a C [int],
    every sequence of updates succeeds, and a sequence ending with the
    parameter [p] leaves the same curves as the single update with [p]
    made right after the start; these curves are what [decimate_fcurve]
    makes of the curves of before the session with the clamped [p] and no
    error bound: each update restores the curves from the snapshot and
    decimates them anew.  [decimate_fcurve] is assumed to keep a curve's
    flags and whether it has a keyframe array, and to leave baked curves
    alone. *)
Theorem update_path_independent st0 ev st1 ps p :
  decimator_keeps_shape H ->
  Forall fcu_wf (curves st0) ->
  Forall (arr_size_fits H) (curves st0) ->
  graphkeys_decimate_invoke H st0 ev = Some (OPERATOR_RUNNING_MODAL, st1) ->
  exists a b,
    updates H (ps ++ [p]) st1 = Some a /\
    update H p st1 = Some b /\
    curves a = curves b /\
    curves b = map (decimated_curve H (clamp_ratio p) FLT_MAX) (curves st0) /\
    remove_ratio a = clamp_ratio p /\
    remove_ratio b = clamp_ratio p.
Proof.
  intros Hk Hwf Hfit Hinv. apply invoke_running in Hinv as (_ & Hact); try assumption.
  destruct (updates_active H (curves st0) ps st1 Hk Hact) as (m & Hm & Hactm).
  destruct (update_active H (curves st0) p m Hk Hactm) as (a & Ha & Hca & _).
  destruct (update_active H (curves st0) p st1 Hk Hact) as (b & Hb & Hcb & _).
  exists a, b. rewrite updates_snoc, Hm. cbn [mbind option_bind].
  rewrite (restored_all_wf H _ Hwf) in Hca, Hcb.
  repeat split; [exact Ha | exact Hb | congruence | exact Hcb | |].
  - unfold update in Ha. now apply modal_update_ratio in Ha.
  - unfold update in Hb. now apply modal_update_ratio in Hb.
Qed.


(** C3, as the code has it.  The batch goes through every listed curve:
    each ends as [decimate_fcurve] leaves it, supported or not, and the
    other curves are untouched.  One warning is reported for each listed
    curve on which [decimate_fcurve] fails, at once and with a fixed text;
    nothing is counted, and the only call after the loop is
    [ANIM_animdata_update]. *)
Theorem batch_warns_per_curve r e st :
  let st' := decimate_graph_keys H r e st in
  curves st' = map (decimated_curve H r e) (curves st) /\
  events st'
  = events st
    ++ repeat (WM_report RPT_WARNING skip_message)
              (length (filter (fun fcu => unsupported H r e fcu = true) (curves st)))
    ++ [ANIM_animdata_update (ANIM_animdata_filter H (curves st))].
Proof.
  cbv zeta. rewrite decimate_graph_keys_eq, skip_report_repeat. cbn. auto.
Qed.

Lemma step_by_reference_in_place r e st ale :
  decimate_step H r e st ale
  = decimate_step_by_reference H (in_place H) r e st ale.
Proof.
  unfold decimate_step, decimate_step_by_reference, in_place.
  destruct (curves st !! ale) as [fcu|].
  - destruct (decimate_fcurve H fcu r e) as [ok fcu']. reflexivity.
  - destruct st; reflexivity.
Qed.

Lemma fold_by_reference_in_place r e (l : list nat) : forall st,
  fold_left (decimate_step H r e) l st
  = fold_left (decimate_step_by_reference H (in_place H) r e) l st.
Proof.
  induction l as [|ale l IH]; intros st; [reflexivity|].
  cbn [fold_left]. now rewrite step_by_reference_in_place, IH.
Qed.

Lemma fold_by_reference_curves (call : decimate_call) r e (l : list nat) :
  forall st,
    curves (fold_left (decimate_step_by_reference H call r e) l st)
    = fold_left (fun cs ale => snd (call cs ale r e)) l (curves st).
Proof.
  induction l as [|ale l IH]; intros st; [reflexivity|].
  cbn [fold_left]. rewrite IH. f_equal.
  unfold decimate_step_by_reference.
  destruct (call (curves st) ale r e) as [[] cs]; reflexivity.
Qed.

Lemma fold_of_pure_calls (call : decimate_call) r e (l : list nat) :
  (forall cs ale, snd (call cs ale r e) = cs) ->
  forall cs, fold_left (fun cs ale => snd (call cs ale r e)) l cs = cs.
Proof.
  intros Hpure. induction l as [|ale l IH]; intros cs; [reflexivity|].
  cbn [fold_left]. now rewrite Hpure, IH.
Qed.


(** C5.  With an editor context, executing the operator in ratio mode with
    [remove_ratio == 0.0f], or in error mode with
    [remove_error_margin == 0.0f], returns [OPERATOR_FINISHED] and leaves
    the whole state, curves included, as it was; executing it again
    changes nothing either. *)
Theorem exec_zero_is_noop st :
  context_ok st = true ->
  (mode st = DECIM_RATIO /\ feq (remove_ratio st) fzero = true) \/
  (mode st = DECIM_ERROR /\ feq (remove_error_margin st) fzero = true) ->
  graphkeys_decimate_exec H st = (OPERATOR_FINISHED, st) /\
  graphkeys_decimate_exec H (snd (graphkeys_decimate_exec H st))
  = graphkeys_decimate_exec H st.
Proof.
  intros Hctx Hzero.
  assert (E : graphkeys_decimate_exec H st = (OPERATOR_FINISHED, st)).
  { unfold graphkeys_decimate_exec. rewrite Hctx. cbn [negb].
    destruct Hzero as [[-> Hz]|[-> Hz]].
    - now rewrite Hz.
    - now rewrite (feq_zero_square _ Hz), orb_true_r. }
  rewrite E. cbn [snd]. auto.
Qed.

(** C7.  With an editor context and no listed curve that has a keyframe
    array, [graphkeys_decimate_invoke] returns [OPERATOR_CANCELLED]; it
    reports the warning about baked channels, frees the session data
    ([op->customdata] is [NULL] again, cursor and status text are
    restored), adds no modal handler, and leaves the curves alone. *)
Theorem invoke_without_eligible_curve st ev :
  context_ok st = true ->
  Forall (fun fcu => eligible H fcu = false) (curves st) ->
  exists status st',
    graphkeys_decimate_invoke H st ev = Some (OPERATOR_CANCELLED, st') /\
    customdata st' = None /\
    curves st' = curves st /\
    events st'
    = events st ++ [WM_cursor_modal_set;
                    ED_area_status_text (Some status);
                    WM_report RPT_WARNING baked_message;
                    WM_cursor_modal_restore;
                    ED_area_status_text None].
Proof.
  intros Hctx Hnone.
  unfold graphkeys_decimate_invoke. cbn [context_ok set_customdata emit].
  rewrite Hctx. cbn [negb].
  unfold decimate_draw_status_header, decimate_mouse_update_percentage.
  cbn [num bezt_arr_list].
  pose proof (copy_loop_none H (curves st) [] [] Hnone) as Hcopy.
  cbn [length app] in Hcopy. fold (ANIM_animdata_filter H (curves st)) in Hcopy.
  destruct (hasNumInput H (num_calloc H)); eexists; eexists;
    cbn [curves emit RNA_property_float_set set_customdata];
    rewrite Hcopy; cbn [mbind option_bind bezt_arr_list];
    (split; [reflexivity|]);
    unfold decimate_exit; cbn;
    rewrite <- !app_assoc; cbn; auto.
Qed.

(** C8, as the code has it.  At every event of a running session the
    modal callback asks [hasNumInput] afresh.  A mouse move changes
    nothing while it answers yes; when it answers no, the ratio is set
    from the pointer position.  A key press that [handleNumInput] handles
    sets the ratio from the value [applyNumInput] returns, divided by 100.
    Both ways go through [RNA_property_float_set], which clamps, and
    [graphkeys_decimate_modal_update]: the curves end as [decimate_fcurve]
    makes them from the curves of before the session with the clamped
    value.  If the helper never disengages, the rest of the session runs
    as if its mouse moves were not there. *)
Theorem numeric_input_precedence st0 ev0 st1 evs ret st dgo :
  decimator_keeps_shape H ->
  Forall fcu_wf (curves st0) ->
  Forall (arr_size_fits H) (curves st0) ->
  graphkeys_decimate_invoke H st0 ev0 = Some (OPERATOR_RUNNING_MODAL, st1) ->
  modal_run H evs st1 = Some (ret, st) ->
  still_modal ret = true ->
  customdata st = Some dgo ->
  (forall ev, is_mousemove ev = true ->
     let pointer :=
       fdiv (of_int (int_sub (ev_x ev) (winrct_xmin (region st))))
            (of_int (winx (region st))) in
     if hasNumInput H (num dgo)
     then graphkeys_decimate_modal H st ev = Some (OPERATOR_RUNNING_MODAL, st)
     else exists st',
       graphkeys_decimate_modal H st ev = Some (OPERATOR_RUNNING_MODAL, st') /\
       remove_ratio st' = clamp_ratio pointer /\
       curves st'
       = map (decimated_curve H (clamp_ratio pointer) FLT_MAX) (curves st0)) /\
  (forall ev code n v n',
     ev_type ev = EVT_OTHER code -> ev_val ev = KM_PRESS ->
     handleNumInput H (num dgo) ev = (true, n) ->
     applyNumInput H n (fmul (remove_ratio st) f_100) = (v, n') ->
     exists st',
       graphkeys_decimate_modal H st ev = Some (OPERATOR_RUNNING_MODAL, st') /\
       remove_ratio st' = clamp_ratio (fdiv v f_100) /\
       curves st'
       = map (decimated_curve H (clamp_ratio (fdiv v f_100)) FLT_MAX)
           (curves st0) /\
       (num <$> customdata st') = Some n') /\
  (numinput_stays_engaged H ->
   hasNumInput H (num dgo) = true ->
   forall evs',
     modal_run H evs' st
     = modal_run H (filter (fun ev => is_mousemove ev = false) evs') st).
Proof.
  intros Hk Hwf Hfit Hinv Hrun Hm Hcd.
  apply invoke_running in Hinv as (_ & Hact); try assumption.
  destruct (modal_run_active H (curves st0) evs st1 Hk Hact)
    as (ret' & st2 & Hrun' & Hnext).
  rewrite Hrun in Hrun'. injection Hrun' as <- <-.
  specialize (Hnext Hm).
  split; [|split].
  - intros ev Hmove pointer.
    destruct (hasNumInput H (num dgo)) eqn:Hn.
    + apply modal_mousemove_engaged; [exists dgo; auto | exact Hmove].
    + destruct (update_active H (curves st0) pointer st Hk Hnext)
        as (st' & E & Hcs & _).
      exists st'. unfold graphkeys_decimate_modal. rewrite Hcd.
      cbn [mbind option_bind]. unfold is_mousemove in Hmove.
      destruct (ev_type ev); try discriminate. rewrite Hn.
      unfold decimate_mouse_update_percentage. fold pointer.
      unfold update in E. rewrite E. cbn [mbind option_bind].
      split; [reflexivity|]. split.
      * now apply modal_update_ratio in E.
      * now rewrite Hcs, (restored_all_wf H _ Hwf).
  - intros ev code n v n' Ht Hv Hh Ha.
    pose proof (set_num_active H (curves st0) st dgo n Hcd Hnext) as Hact1.
    assert (Hact2 : active H (curves st0)
              (set_customdata H
                 (Some {| bezt_arr_list := bezt_arr_list dgo; num := n' |})
                 (set_customdata H
                    (Some {| bezt_arr_list := bezt_arr_list dgo; num := n |}) st))).
    { apply (set_num_active H (curves st0) _
               {| bezt_arr_list := bezt_arr_list dgo; num := n |} n');
        [reflexivity | exact Hact1]. }
    destruct (update_active H (curves st0) (fdiv v f_100) _ Hk Hact2)
      as (st' & E & Hcs & _).
    exists st'. unfold graphkeys_decimate_modal. rewrite Hcd.
    cbn [mbind option_bind]. rewrite Ht, Hv, Hh.
    change (remove_ratio (set_customdata H
              (Some {| bezt_arr_list := bezt_arr_list dgo; num := n |}) st))
      with (remove_ratio st).
    rewrite Ha. unfold update in E. rewrite E. cbn [mbind option_bind].
    split; [reflexivity|]. split; [|split].
    + now apply modal_update_ratio in E.
    + now rewrite Hcs, (restored_all_wf H _ Hwf).
    + apply modal_update_customdata in E. rewrite E. reflexivity.
  - intros Hs Hn evs'. apply modal_run_skips_mousemove; [exact Hs|].
    exists dgo. auto.
Qed.

End OperatorFacts.

(* ====================================================================== *)
(** * The theorems at the sample data *)
(* ====================================================================== *)

Import Decimate.

Lemma decimate_keeps_endpoints_witness :
  bezt fcu_line = Some line5 /\
  (2 <= length line5)%nat /\
  exists out pts',
    decimate zero_cost fcu_line (ByRatio f_half) = inl out /\
    bezt out = Some pts' /\
    head pts' = head line5 /\
    last pts' = last line5 /\
    (2 <= length pts')%nat /\
    sublist pts' line5.
Proof.
  split; [reflexivity|]. split; [cbn; lia|].
  apply (decimate_keeps_endpoints zero_cost fcu_line (ByRatio f_half) line5);
    [reflexivity | cbn; lia].
Defined.

Example one_baked_one_warning :
  List.filter is_warning
    (events (decimate_graph_keys demo_host f_half FLT_MAX one_baked))
  = [WM_report RPT_WARNING skip_message].
Proof. vm_compute. reflexivity. Qed.

Lemma demo_start_wf : Forall fcu_wf (curves demo_start).
Proof.
  repeat constructor; intros b Hb; cbn in Hb; try discriminate;
    injection Hb as <-; reflexivity.
Defined.

Lemma demo_start_fits : Forall (arr_size_fits demo_host) (curves demo_start).
Proof.
  unfold demo_start, demo_state. cbn [curves].
  repeat (apply List.Forall_cons;
          [unfold arr_size_fits; intros _; cbn; unfold INT_MAX; lia|]).
  apply List.Forall_nil.
Defined.

(** With 72 bytes to a key, thirty million keys make a byte count that
    wraps to a negative [int], and the copy fails; sixty million wrap to
    a positive count, 25 032 704 bytes, room for 347 676 keys. *)
Example arr_size_wraps :
  arr_size demo_host 30000000 = (-2134967296)%Z /\
  memcpy demo_host (arr_size demo_host 30000000) line5 = None /\
  arr_size demo_host 60000000 = 25032704%Z /\
  (arr_size demo_host 60000000 / 72 = 347676)%Z /\
  memcpy demo_host (arr_size demo_host 5) line5 = Some line5.
Proof. vm_compute. repeat split; reflexivity. Qed.

Lemma update_path_independent_witness :
  decimator_keeps_shape demo_host /\
  Forall fcu_wf (curves demo_start) /\
  Forall (arr_size_fits demo_host) (curves demo_start) /\
  graphkeys_decimate_invoke demo_host demo_start (mouse_at 500)
  = Some (OPERATOR_RUNNING_MODAL, demo_session) /\
  exists a b,
    updates demo_host ([f_0_9; f_0_2] ++ [f_half]) demo_session = Some a /\
    update demo_host f_half demo_session = Some b /\
    curves a = curves b /\
    curves b
    = map (decimated_curve demo_host (clamp_ratio f_half) FLT_MAX)
        (curves demo_start) /\
    remove_ratio a = clamp_ratio f_half /\
    remove_ratio b = clamp_ratio f_half.
Proof.
  split; [apply spec_decimator_keeps_shape|].
  split; [exact demo_start_wf|].
  split; [exact demo_start_fits|].
  split; [vm_compute; reflexivity|].
  apply (update_path_independent demo_host demo_start (mouse_at 500)
           demo_session [f_0_9; f_0_2] f_half).
  - apply spec_decimator_keeps_shape.
  - exact demo_start_wf.
  - exact demo_start_fits.
  - vm_compute; reflexivity.
Defined.


(** C3 as stated fails: with two baked curves in the selection the batch
    reports two warnings, not one, and none carries a count. *)
Lemma batch_two_baked_two_warnings :
  List.filter is_warning
    (events (decimate_graph_keys demo_host f_half FLT_MAX two_baked))
  = [WM_report RPT_WARNING skip_message; WM_report RPT_WARNING skip_message] /\
  length (List.filter is_warning
            (events (decimate_graph_keys demo_host f_half FLT_MAX two_baked)))
  <> 1%nat.
Proof. vm_compute. split; [reflexivity | discriminate]. Qed.


Lemma exec_zero_is_noop_witness :
  context_ok demo_zero_ratio = true /\
  ((mode demo_zero_ratio = DECIM_RATIO /\
    feq (remove_ratio demo_zero_ratio) fzero = true) \/
   (mode demo_zero_ratio = DECIM_ERROR /\
    feq (remove_error_margin demo_zero_ratio) fzero = true)) /\
  graphkeys_decimate_exec demo_host demo_zero_ratio
  = (OPERATOR_FINISHED, demo_zero_ratio) /\
  graphkeys_decimate_exec demo_host
    (snd (graphkeys_decimate_exec demo_host demo_zero_ratio))
  = graphkeys_decimate_exec demo_host demo_zero_ratio.
Proof.
  split; [reflexivity|].
  split; [left; split; reflexivity|].
  apply (exec_zero_is_noop demo_host demo_zero_ratio);
    [reflexivity | left; split; reflexivity].
Defined.

Lemma invoke_without_eligible_curve_witness :
  context_ok only_baked = true /\
  Forall (fun fcu => eligible demo_host fcu = false) (curves only_baked) /\
  exists status st',
    graphkeys_decimate_invoke demo_host only_baked (mouse_at 500)
    = Some (OPERATOR_CANCELLED, st') /\
    customdata st' = None /\
    curves st' = curves only_baked /\
    events st'
    = events only_baked ++ [WM_cursor_modal_set;
                            ED_area_status_text (Some status);
                            WM_report RPT_WARNING baked_message;
                            WM_cursor_modal_restore;
                            ED_area_status_text None].
Proof.
  split; [reflexivity|].
  split; [repeat constructor|].
  apply (invoke_without_eligible_curve demo_host only_baked (mouse_at 500));
    [reflexivity | repeat constructor].
Defined.

Lemma numeric_input_precedence_witness :
  decimator_keeps_shape demo_host /\
  Forall fcu_wf (curves demo_start) /\
  Forall (arr_size_fits demo_host) (curves demo_start) /\
  graphkeys_decimate_invoke demo_host demo_start (mouse_at 500)
  = Some (OPERATOR_RUNNING_MODAL, demo_session) /\
  modal_run demo_host [press (EVT_OTHER 5)] demo_session
  = Some (OPERATOR_RUNNING_MODAL, demo_typed) /\
  still_modal OPERATOR_RUNNING_MODAL = true /\
  customdata demo_typed = Some demo_typed_op /\
  hasNumInput demo_host (num demo_typed_op) = true /\
  graphkeys_decimate_modal demo_host demo_typed (mouse_at 900)
  = Some (OPERATOR_RUNNING_MODAL, demo_typed) /\
  (exists st',
     graphkeys_decimate_modal demo_host demo_typed (press (EVT_OTHER 0))
     = Some (OPERATOR_RUNNING_MODAL, st') /\
     remove_ratio st' = f_half /\
     curves st'
     = map (decimated_curve demo_host f_half FLT_MAX) (curves demo_start)) /\
  (forall evs',
     modal_run demo_host evs' demo_typed
     = modal_run demo_host (filter (fun ev => is_mousemove ev = false) evs')
         demo_typed).
Proof.
  split; [apply spec_decimator_keeps_shape|].
  split; [exact demo_start_wf|].
  split; [exact demo_start_fits|].
  split; [vm_compute; reflexivity|].
  split; [vm_compute; reflexivity|].
  split; [reflexivity|].
  split; [vm_compute; reflexivity|].
  split; [reflexivity|].
  destruct (numeric_input_precedence demo_host demo_start (mouse_at 500)
              demo_session [press (EVT_OTHER 5)] OPERATOR_RUNNING_MODAL
              demo_typed demo_typed_op)
    as (Hmove & Hkey & Hrun).
  - apply spec_decimator_keeps_shape.
  - exact demo_start_wf.
  - exact demo_start_fits.
  - vm_compute; reflexivity.
  - vm_compute; reflexivity.
  - reflexivity.
  - vm_compute; reflexivity.
  - split; [exact (Hmove (mouse_at 900) eq_refl)|].
    split.
    + destruct (Hkey (press (EVT_OTHER 0)) 0%Z
                  {| ni_engaged := true; ni_value := of_int 50 |}
                  (of_int 50)
                  {| ni_engaged := true; ni_value := of_int 50 |})
        as (st' & E & Hr & Hc & _);
        [reflexivity | reflexivity | vm_compute; reflexivity
        | vm_compute; reflexivity |].
      exists st'. split; [exact E|]. split.
      * rewrite Hr. vm_compute. reflexivity.
      * rewrite Hc. f_equal.
    + apply Hrun; [apply spec_numinput_stays_engaged | reflexivity].
Defined.

(** C8 as stated fails: nothing in the operator keeps numeric entry
    engaged.  With a helper that backspace disengages, the digit 5 is
    typed (numeric entry is engaged and a mouse move changes nothing),
    backspace is pressed, and the next mouse move of the same session sets
    the ratio to the pointer position, nine tenths. *)
Lemma pointer_regains_control :
  exists typed cleared moved dgo,
    graphkeys_decimate_invoke clearing_host demo_start (mouse_at 500)
    = Some (OPERATOR_RUNNING_MODAL, clearing_session) /\
    graphkeys_decimate_modal clearing_host clearing_session (press (EVT_OTHER 5))
    = Some (OPERATOR_RUNNING_MODAL, typed) /\
    customdata typed = Some dgo /\
    hasNumInput clearing_host (num dgo) = true /\
    graphkeys_decimate_modal clearing_host typed (mouse_at 900)
    = Some (OPERATOR_RUNNING_MODAL, typed) /\
    graphkeys_decimate_modal clearing_host typed (press (EVT_OTHER backspace))
    = Some (OPERATOR_RUNNING_MODAL, cleared) /\
    graphkeys_decimate_modal clearing_host cleared (mouse_at 900)
    = Some (OPERATOR_RUNNING_MODAL, moved) /\
    remove_ratio moved = f_0_9 /\
    remove_ratio moved <> remove_ratio cleared /\
    curves moved <> curves cleared.
Proof.
  do 4 eexists.
  split; [vm_compute; reflexivity|].
  split; [vm_compute; reflexivity|].
  split; [reflexivity|].
  split; [reflexivity|].
  split; [vm_compute; reflexivity|].
  split; [vm_compute; reflexivity|].
  split; [vm_compute; reflexivity|].
  split; [vm_compute; reflexivity|].
  split; vm_compute; discriminate.
Qed.

(* ====================================================================== *)
(** * The order of single-precision floats *)
(* ====================================================================== *)

Section FloatOrder.

Local Open Scope Z_scope.

(** The comparison of two finite floats of the same sign reads the
    exponent first and the mantissa next. *)
Lemma finite_compare_lt (e1 e2 : Z) (m1 m2 : positive) :
  match Z.compare e1 e2 with
  | Lt => Lt
  | Gt => Gt
  | Eq => Pos.compare_cont Eq m1 m2
  end = Lt <->
  e1 < e2 \/ (e1 = e2 /\ (m1 < m2)%positive).
Proof.
  change (Pos.compare_cont Eq m1 m2) with (Pos.compare m1 m2).
  destruct (Z.compare_spec e1 e2); destruct (Pos.compare_spec m1 m2);
    split; intros Hc; try discriminate; try reflexivity; lia.
Qed.

Lemma finite_compare_gt (e1 e2 : Z) (m1 m2 : positive) :
  match Z.compare e1 e2 with
  | Lt => Gt
  | Gt => Lt
  | Eq => CompOpp (Pos.compare_cont Eq m1 m2)
  end = Lt <->
  e2 < e1 \/ (e1 = e2 /\ (m2 < m1)%positive).
Proof.
  change (Pos.compare_cont Eq m1 m2) with (Pos.compare m1 m2).
  destruct (Z.compare_spec e1 e2); destruct (Pos.compare_spec m1 m2);
    cbn; split; intros Hc; try discriminate; try reflexivity; lia.
Qed.

Lemma flt_irrefl (a : float) : flt a a = false.
Proof.
  destruct a as [s|s| |s m e]; cbn; try reflexivity.
  - destruct s; reflexivity.
  - unfold flt, SFltb, SFcompare.
    destruct s; rewrite Z.compare_refl;
      change (Pos.compare_cont Eq m m) with (Pos.compare m m);
      rewrite Pos.compare_refl; reflexivity.
Qed.

Lemma flt_finite (s1 s2 : bool) (m1 m2 : positive) (e1 e2 : Z) :
  flt (S754_finite s1 m1 e1) (S754_finite s2 m2 e2) = true <->
  match s1, s2 with
  | true, false => True
  | false, true => False
  | false, false => e1 < e2 \/ (e1 = e2 /\ (m1 < m2)%positive)
  | true, true => e2 < e1 \/ (e1 = e2 /\ (m2 < m1)%positive)
  end.
Proof.
  unfold flt, SFltb, SFcompare.
  destruct s1, s2.
  - rewrite <- finite_compare_gt.
    destruct (match (e1 ?= e2) with Lt => Gt | Gt => Lt | Eq => _ end);
      split; intros Hc; try discriminate; reflexivity.
  - tauto.
  - split; [discriminate | tauto].
  - rewrite <- finite_compare_lt.
    destruct (match (e1 ?= e2) with Lt => Lt | Gt => Gt | Eq => _ end);
      split; intros Hc; try discriminate; reflexivity.
Qed.

(** [<] on floats is transitive (NaN is below and above nothing). *)
Lemma flt_trans (a b c : float) :
  flt a b = true -> flt b c = true -> flt a c = true.
Proof.
  destruct a as [sa|sa| |sa ma ea], b as [sb|sb| |sb mb eb],
           c as [sc|sc| |sc mc ec];
    try (cbn; discriminate);
    try (rewrite !flt_finite; destruct sa, sb, sc; intros; try tauto; lia);
    unfold flt, SFltb, SFcompare;
    repeat match goal with s : bool |- _ => destruct s end;
    try discriminate; try reflexivity.
Qed.

End FloatOrder.

(* ====================================================================== *)
(** * Keyframe range: defaults, out-parameters, bounding box *)
(* ====================================================================== *)

Section RangeFacts.

Import Extents Range.

Implicit Types (o : Out) (ale : bAnimListElem) (p : option float).

Lemma channel_step_bounds sel handles o found ale :
  channel_step sel handles (o, found) ale
  = match channel_bounds sel handles ale with
    | Some (txmin, txmax, tymin, tymax) =>
        ({| xmin := lower (xmin o) txmin; xmax := raise (xmax o) txmax;
            ymin := lower (ymin o) tymin; ymax := raise (ymax o) tymax |}, true)
    | None => (o, found)
    end.
Proof.
  unfold channel_step, channel_bounds.
  destruct (ale_bounds ale sel handles) as [[[[a b] c] d]|]; reflexivity.
Qed.

(** Channels without bounds leave the loop state alone. *)
Lemma fold_no_bounds sel handles ales : forall st,
  Forall (fun ale => ale_bounds ale sel handles = None) ales ->
  fold_left (channel_step sel handles) ales st = st.
Proof.
  induction ales as [|ale ales IH]; intros st Hall; [reflexivity|].
  apply Forall_cons in Hall as [Ha Hall]. cbn [fold_left].
  unfold channel_step at 2. destruct st as [o found]. rewrite Ha.
  now apply IH.
Qed.

Lemma store_store p (v w : float) : store (store p v) w = store p w.
Proof. now destruct p. Qed.

(** X1.  When no channel yields bounds (in particular when there is no
    channel at all) and the context has a scene, the function returns the
    scene's frame range [PSFRA], [PEFRA] for x and -5, 5 for y in the
    out-parameters that were passed; without channels and without scene
    it returns -5, 100 and -5, 5. *)
Theorem extents_fall_back_to_defaults ac o sel handles :
  Forall (fun ale => ale_bounds ale sel handles = None) (anim_data ac) ->
  (forall sc, scene ac = Some sc ->
     get_graph_keyframe_extents ac o sel handles
     = Some {| xmin := store (xmin o) (of_int (PSFRA sc));
               xmax := store (xmax o) (of_int (PEFRA sc));
               ymin := store (ymin o) (of_int (-5));
               ymax := store (ymax o) (of_int 5) |}) /\
  (scene ac = None -> anim_data ac = [] ->
     get_graph_keyframe_extents ac o sel handles
     = Some {| xmin := store (xmin o) (of_int (-5));
               xmax := store (xmax o) (of_int 100);
               ymin := store (ymin o) (of_int (-5));
               ymax := store (ymax o) (of_int 5) |}).
Proof.
  intros Hall. split.
  - intros sc Hsc. unfold get_graph_keyframe_extents, raw_extents.
    rewrite (fold_no_bounds sel handles _ _ Hall), Hsc.
    destruct (anim_data ac); cbn [init_extents xmin xmax ymin ymax];
      now rewrite !store_store.
  - intros Hsc Hnil. unfold get_graph_keyframe_extents.
    rewrite Hnil, Hsc. cbn [init_extents xmin xmax ymin ymax].
    now rewrite !store_store.
Qed.

Lemma store_none p (v : float) : store p v = None <-> p = None.
Proof. destruct p; cbn; split; congruence. Qed.

Lemma lower_none p (t : float) : lower p t = None <-> p = None.
Proof. destruct p as [v|]; cbn; [destruct (flt t v)|]; split; congruence. Qed.

Lemma raise_none p (t : float) : raise p t = None <-> p = None.
Proof. destruct p as [v|]; cbn; [destruct (fgt t v)|]; split; congruence. Qed.

Lemma fmap_none {A B} (f : A -> B) (q : option A) : f <$> q = None <-> q = None.
Proof. destruct q; cbn; split; congruence. Qed.

Lemma same_pointers_trans o1 o2 o3 :
  same_pointers o1 o2 -> same_pointers o2 o3 -> same_pointers o1 o3.
Proof. unfold same_pointers. tauto. Qed.

Lemma fold_same_pointers sel handles ales : forall o found,
  same_pointers (fst (fold_left (channel_step sel handles) ales (o, found))) o.
Proof.
  induction ales as [|ale ales IH]; intros o found; cbn [fold_left].
  - cbn. unfold same_pointers. tauto.
  - rewrite channel_step_bounds.
    destruct (channel_bounds sel handles ale) as [[[[a b] c] d]|]; [|apply IH].
    eapply same_pointers_trans; [apply IH|].
    unfold same_pointers. cbn. rewrite !lower_none, !raise_none. tauto.
Qed.

Lemma widen_same_pointers o : same_pointers (widen_y (widen_x o)) o.
Proof.
  unfold widen_y, widen_x, same_pointers.
  destruct (degenerate (xmin o) (xmax o)); cbn;
    destruct (degenerate _ _); cbn; rewrite ?fmap_none; tauto.
Qed.

Lemma extents_return_with_scene ac o sel handles sc :
  scene ac = Some sc ->
  exists r,
    get_graph_keyframe_extents ac o sel handles = Some r /\
    (xmin r = None <-> xmin o = None) /\ (xmax r = None <-> xmax o = None) /\
    (ymin r = None <-> ymin o = None) /\ (ymax r = None <-> ymax o = None).
Proof.
  intros Hsc. unfold get_graph_keyframe_extents. rewrite Hsc.
  destruct (anim_data ac) as [|ale ales] eqn:Hd.
  - eexists. split; [reflexivity|]. cbn. rewrite !store_none. tauto.
  - pose proof (fold_same_pointers sel handles (anim_data ac) (init_extents o) false)
      as Hp.
    unfold raw_extents.
    destruct (fold_left _ (anim_data ac) _) as [o1 found]. cbn [fst] in Hp.
    assert (Hi : same_pointers (init_extents o) o).
    { unfold same_pointers. cbn. rewrite !store_none. tauto. }
    pose proof (same_pointers_trans _ _ _ Hp Hi) as Hpo.
    destruct found; eexists; (split; [reflexivity|]).
    + exact (same_pointers_trans _ _ _ (widen_same_pointers o1) Hpo).
    + destruct Hpo as (H1 & H2 & H3 & H4). cbn. rewrite !store_none. tauto.
Qed.

(** X2.  With a scene in the context the function always returns, and it
    writes exactly the out-parameters it was given: a [NULL] pointer stays
    [NULL] and every other one holds a value. *)
Theorem extents_total_with_scene ac o sel handles sc :
  scene ac = Some sc ->
  exists r,
    get_graph_keyframe_extents ac o sel handles = Some r /\
    (xmin r = None <-> xmin o = None) /\ (xmax r = None <-> xmax o = None) /\
    (ymin r = None <-> ymin o = None) /\ (ymax r = None <-> ymax o = None).
Proof. exact (extents_return_with_scene ac o sel handles sc). Qed.

(** ** The bounding box *)

Lemma lower_keeps t p u : not_below t p -> not_below t (lower p u).
Proof.
  unfold not_below. destruct p as [v|]; cbn; [|discriminate].
  intros Hv v' Hl. specialize (Hv v eq_refl).
  destruct (flt u v) eqn:Huv; injection Hl as <-; [|exact Hv].
  destruct (flt t u) eqn:Htu; [|reflexivity].
  now rewrite (flt_trans t u v Htu Huv) in Hv.
Qed.

Lemma lower_self p u : not_below u (lower p u).
Proof.
  unfold not_below. destruct p as [v|]; cbn; [|discriminate].
  intros v' Hl. destruct (flt u v) eqn:Huv; injection Hl as <-;
    [apply flt_irrefl | exact Huv].
Qed.

Lemma raise_keeps t p u : not_above t p -> not_above t (raise p u).
Proof.
  unfold not_above, fgt. destruct p as [v|]; cbn; [|discriminate].
  intros Hv v' Hl. specialize (Hv v eq_refl). unfold fgt in Hl.
  destruct (SFltb v u) eqn:Hvu; injection Hl as <-; [|exact Hv].
  destruct (SFltb u t) eqn:Hut; [|reflexivity].
  pose proof (flt_trans v u t Hvu Hut) as Hc. unfold flt in Hc. congruence.
Qed.

Lemma raise_self p u : not_above u (raise p u).
Proof.
  unfold not_above, fgt. destruct p as [v|]; cbn; [|discriminate].
  intros v' Hl. unfold fgt in Hl.
  destruct (SFltb v u) eqn:Hvu; injection Hl as <-;
    [exact (flt_irrefl u) | exact Hvu].
Qed.

Lemma step_keeps_inside sel handles b o found ale :
  inside b o -> inside b (fst (channel_step sel handles (o, found) ale)).
Proof.
  rewrite channel_step_bounds.
  destruct (channel_bounds sel handles ale) as [[[[a1 a2] a3] a4]|]; [|auto].
  destruct b as [[[b1 b2] b3] b4]. cbn. intros (H1 & H2 & H3 & H4).
  auto using lower_keeps, raise_keeps.
Qed.

Lemma fold_keeps_inside sel handles b ales : forall o found,
  inside b o ->
  inside b (fst (fold_left (channel_step sel handles) ales (o, found))).
Proof.
  induction ales as [|ale ales IH]; intros o found Hin; [exact Hin|].
  cbn [fold_left].
  destruct (channel_step sel handles (o, found) ale) as [o' found'] eqn:Hs.
  apply IH. change o' with (fst (o', found')). rewrite <- Hs.
  now apply step_keeps_inside.
Qed.

Lemma fold_contains sel handles ales : forall o found ale b,
  In ale ales ->
  channel_bounds sel handles ale = Some b ->
  inside b (fst (fold_left (channel_step sel handles) ales (o, found))).
Proof.
  induction ales as [|a ales IH]; intros o found ale b Hin Hb; [destruct Hin|].
  cbn [fold_left].
  destruct (channel_step sel handles (o, found) a) as [o' found'] eqn:Hs.
  destruct Hin as [->|Hin]; [|now apply (IH o' found' ale b)].
  apply fold_keeps_inside.
  rewrite channel_step_bounds, Hb in Hs. destruct b as [[[b1 b2] b3] b4].
  injection Hs as <- _. cbn.
  auto using lower_self, raise_self.
Qed.

Lemma extents_found ac o sel handles o1 :
  raw_extents ac o sel handles = (o1, true) ->
  get_graph_keyframe_extents ac o sel handles = Some (widen_y (widen_x o1)).
Proof.
  intros Hraw. pose proof (raw_extents_found_nonempty _ _ _ _ _ Hraw) as Hne.
  unfold get_graph_keyframe_extents.
  destruct (anim_data ac); [congruence|]. now rewrite Hraw.
Qed.

(** X3.  The returned box holds every channel that has bounds: for each
    such channel, its lowest value is never below the returned [ymin];
    and when the computed range is not degenerate in x (in y), its
    first and last frame are not outside the returned [xmin] and [xmax]
    (its highest value is not above the returned [ymax]).  The
    comparisons are the single-precision [<] and [>] of the loop. *)
Theorem extents_contain_every_channel ac o sel handles ale
    txmin txmax tymin tymax :
  In ale (anim_data ac) ->
  channel_bounds sel handles ale = Some (txmin, txmax, tymin, tymax) ->
  let raw := fst (raw_extents ac o sel handles) in
  forall r,
    get_graph_keyframe_extents ac o sel handles = Some r ->
    not_below tymin (ymin r) /\
    (degenerate (xmin raw) (xmax raw) = false ->
     not_below txmin (xmin r) /\ not_above txmax (xmax r)) /\
    (degenerate (ymin raw) (ymax raw) = false -> not_above tymax (ymax r)).
Proof.
  intros Hin Hb raw r Hr.
  pose proof (fold_contains sel handles (anim_data ac) (init_extents o) false
                ale _ Hin Hb) as Hbox.
  fold (raw_extents ac o sel handles) in Hbox. fold raw in Hbox.
  assert (Hfound : snd (raw_extents ac o sel handles) = true).
  { unfold raw_extents. clear -Hin Hb.
    generalize (init_extents o) false. revert Hin.
    induction (anim_data ac) as [|a ales IH]; intros Hin o0 f0; [destruct Hin|].
    cbn [fold_left]. destruct Hin as [->|Hin].
    - rewrite channel_step_bounds, Hb.
      clear. generalize ({| xmin := lower (xmin o0) txmin;
                            xmax := raise (xmax o0) txmax;
                            ymin := lower (ymin o0) tymin;
                            ymax := raise (ymax o0) tymax |}).
      induction ales as [|a ales IH]; intros o1; [reflexivity|].
      cbn [fold_left]. rewrite channel_step_bounds.
      destruct (channel_bounds sel handles a) as [[[[a1 a2] a3] a4]|]; apply IH.
    - destruct (channel_step sel handles (o0, f0) a). now apply IH. }
  destruct (raw_extents ac o sel handles) as [o1 found] eqn:Hraw.
  cbn [snd] in Hfound. subst found. subst raw. cbn [fst] in *.
  rewrite (extents_found ac o sel handles o1 Hraw) in Hr. injection Hr as <-.
  destruct Hbox as (B1 & B2 & B3 & B4).
  destruct (widen_x_keeps_y o1) as [Hy1 Hy2].
  destruct (widen_y_keeps_x (widen_x o1)) as [Hx1 Hx2].
  split; [|split].
  - unfold widen_y. destruct (degenerate _ _); cbn; now rewrite Hy1.
  - intros Hd. rewrite Hx1, Hx2. unfold widen_x. rewrite Hd. auto.
  - intros Hd. unfold widen_y. rewrite Hy1, Hy2, Hd. now rewrite Hy2.
Qed.

End RangeFacts.

Section PreviewRangeFacts.

Import Extents Range.

Variable round_fl_to_int : float -> Z.
Variable SCER_PRV_RANGE : Z.

Lemma lor_then_land (a b : Z) : Z.land (Z.lor a b) b = b.
Proof.
  apply Z.bits_inj'. intros n Hn.
  rewrite Z.land_spec, Z.lor_spec.
  destruct (Z.testbit a n), (Z.testbit b n); reflexivity.
Qed.

(** X4.  [graphkeys_previewrange_exec] never reaches the [NULL] scene
    dereference of [get_graph_keyframe_extents]: without context or
    without scene it returns [OPERATOR_CANCELLED] and changes nothing;
    otherwise it returns [OPERATOR_FINISHED], sends one notifier, sets the
    [SCER_PRV_RANGE] bit and stores the rounded x-extents of the keyframes
    as the preview range. *)
Theorem previewrange_exec_total st :
  exists ret st',
    graphkeys_previewrange_exec round_fl_to_int SCER_PRV_RANGE st = Some (ret, st') /\
    match context st ≫= scene with
    | None => ret = OPERATOR_CANCELLED /\ st' = st
    | Some _ =>
        ret = OPERATOR_FINISHED /\
        context st' = context st /\
        events st' = events st ++ [WM_event_add_notifier_frame] /\
        Z.land (r_flag (render st')) SCER_PRV_RANGE = SCER_PRV_RANGE /\
        exists ac r min max,
          context st = Some ac /\
          get_graph_keyframe_extents ac x_only false false = Some r /\
          xmin r = Some min /\ xmax r = Some max /\
          r_psfra (render st') = round_fl_to_int min /\
          r_pefra (render st') = round_fl_to_int max
    end.
Proof.
  unfold graphkeys_previewrange_exec.
  destruct (context st) as [ac|] eqn:Hc; cbn [mbind option_bind];
    [|eexists _, _; split; [reflexivity | auto]].
  destruct (scene ac) as [sc|] eqn:Hs;
    [|eexists _, _; split; [reflexivity | auto]].
  destruct (extents_return_with_scene ac x_only false false sc Hs)
    as (r & Hr & Hx1 & Hx2 & _).
  rewrite Hr. cbn [mbind option_bind].
  destruct (xmin r) as [min|] eqn:Hmin; [|exfalso; cbn in Hx1; now destruct Hx1 as [Hx1 _]; specialize (Hx1 eq_refl)].
  destruct (xmax r) as [max|] eqn:Hmax; [|exfalso; cbn in Hx2; now destruct Hx2 as [Hx2 _]; specialize (Hx2 eq_refl)].
  cbn [mbind option_bind]. eexists _, _. split; [reflexivity|].
  cbn. repeat split; auto using lor_then_land.
  exists ac, r, min, max. repeat split; auto.
Qed.

End PreviewRangeFacts.

Section RangeWitnesses.

Import Extents Range.

Lemma extents_fall_back_to_defaults_witness :
  Forall (fun ale => ale_bounds ale true false = None) (anim_data unkeyed_context) /\
  (forall sc, scene unkeyed_context = Some sc ->
     get_graph_keyframe_extents unkeyed_context all_requested true false
     = Some {| xmin := store (xmin all_requested) (of_int (PSFRA sc));
               xmax := store (xmax all_requested) (of_int (PEFRA sc));
               ymin := store (ymin all_requested) (of_int (-5));
               ymax := store (ymax all_requested) (of_int 5) |}).
Proof.
  split; [repeat constructor|].
  apply (extents_fall_back_to_defaults unkeyed_context all_requested true false).
  repeat constructor.
Defined.

Lemma extents_total_with_scene_witness :
  scene flat_context = Some {| PSFRA := 1; PEFRA := 250 |} /\
  exists r,
    get_graph_keyframe_extents flat_context x_only false false = Some r /\
    (xmin r = None <-> xmin x_only = None) /\ (xmax r = None <-> xmax x_only = None) /\
    (ymin r = None <-> ymin x_only = None) /\ (ymax r = None <-> ymax x_only = None).
Proof.
  split; [reflexivity|].
  apply (extents_total_with_scene flat_context x_only false false
           {| PSFRA := 1; PEFRA := 250 |}).
  reflexivity.
Defined.

Lemma extents_contain_every_channel_witness :
  In (wide_channel 4 20 (-3) 2) (anim_data two_channels) /\
  channel_bounds false false (wide_channel 4 20 (-3) 2)
  = Some (of_int 4, of_int 20, of_int (-3), of_int 2) /\
  get_graph_keyframe_extents two_channels all_requested false false
  = Some {| xmin := Some (of_int 1); xmax := Some (of_int 20);
            ymin := Some (of_int (-3)); ymax := Some (of_int 5) |} /\
  not_below (of_int (-3)) (Some (of_int (-3))) /\
  (degenerate (Some (of_int 1)) (Some (of_int 20)) = false ->
   not_below (of_int 4) (Some (of_int 1)) /\
   not_above (of_int 20) (Some (of_int 20))) /\
  (degenerate (Some (of_int (-3))) (Some (of_int 5)) = false ->
   not_above (of_int 2) (Some (of_int 5))).
Proof.
  split; [right; left; reflexivity|].
  split; [reflexivity|].
  split; [vm_compute; reflexivity|].
  apply (extents_contain_every_channel two_channels all_requested false false
           (wide_channel 4 20 (-3) 2) (of_int 4) (of_int 20) (of_int (-3)) (of_int 2)
           (or_intror (or_introl eq_refl)) eq_refl
           {| xmin := Some (of_int 1); xmax := Some (of_int 20);
              ymin := Some (of_int (-3)); ymax := Some (of_int 5) |}).
  vm_compute; reflexivity.
Defined.

End RangeWitnesses.

(* ====================================================================== *)
(** * Decimate: starting, confirming, executing *)
(* ====================================================================== *)

Section DecimateMoreFacts.

Import Decimate DecimateUI.

Context (H : Host).

Implicit Types (st : State (NumInput H)) (ev : wmEvent).

Lemma snapshot_of_length cs :
  length (snapshot_of H cs)
  = length (filter (fun fcu => eligible H fcu = true) cs).
Proof.
  induction cs as [|fcu cs IH]; [reflexivity|].
  unfold snapshot_of. cbn [flat_map]. fold (snapshot_of H cs).
  rewrite length_app, filter_cons, IH.
  destruct (decide (eligible H fcu = true)) as [He|He].
  - destruct (eligible_true H fcu He) as (Hl & pts & Hp).
    unfold copy_of. now rewrite Hl, Hp.
  - apply not_true_is_false in He.
    now destruct (eligible_false H fcu He) as (-> & _).
Qed.

Lemma snapshot_of_some cs :
  Exists (fun fcu => eligible H fcu = true) cs -> snapshot_of H cs <> [].
Proof.
  intros Hex Hnil. apply (f_equal length) in Hnil.
  rewrite snapshot_of_length in Hnil. cbn in Hnil.
  apply Exists_exists in Hex as (fcu & Hin & He).
  assert (Hf : fcu ∈ filter (fun fcu => eligible H fcu = true) cs).
  { apply list_elem_of_filter. split; [exact He | exact Hin]. }
  destruct (filter _ cs); [inversion Hf | discriminate].
Qed.

Lemma invoke_with_eligible_curve_aux st ev :
  Forall fcu_wf (curves st) ->
  Forall (arr_size_fits H) (curves st) ->
  context_ok st = true ->
  Exists (fun fcu => eligible H fcu = true) (curves st) ->
  exists st' dgo,
    graphkeys_decimate_invoke H st ev = Some (OPERATOR_RUNNING_MODAL, st') /\
    curves st' = curves st /\
    remove_ratio st'
    = clamp_ratio (fdiv (of_int (int_sub (ev_x ev) (winrct_xmin (region st))))
                        (of_int (winx (region st)))) /\
    customdata st' = Some dgo /\
    num dgo = num_calloc H /\
    bezt_arr_list dgo = snapshot_of H (curves st) /\
    length (bezt_arr_list dgo)
    = length (filter (fun fcu => eligible H fcu = true) (curves st)) /\
    last (events st') = Some WM_event_add_modal_handler.
Proof.
  intros Hwf Hfit Hctx Hex.
  pose proof (snapshot_of_some _ Hex) as Hne.
  unfold graphkeys_decimate_invoke. cbn [context_ok set_customdata emit].
  rewrite Hctx. cbn [negb].
  unfold decimate_draw_status_header, decimate_mouse_update_percentage.
  cbn [num bezt_arr_list].
  destruct (hasNumInput H (num_calloc H));
    cbn [curves emit RNA_property_float_set set_customdata];
    rewrite (copy_loop_eq H _ Hwf Hfit); cbn [mbind option_bind bezt_arr_list];
    (destruct (snapshot_of H (curves st)) as [|c l] eqn:Hs; [congruence|]);
    eexists _, _; (split; [reflexivity|]); cbn [curves remove_ratio customdata events num bezt_arr_list emit set_customdata];
    rewrite <- Hs, last_snoc; repeat split; auto; apply snapshot_of_length.
Qed.

(** X5.  With an editor context and at least one listed curve that has a
    keyframe array, on curves whose recorded lengths are right and whose
    byte counts fit a C [int], [graphkeys_decimate_invoke] returns
    [OPERATOR_RUNNING_MODAL]: the curves are untouched, the ratio is the
    clamped pointer position, the session data holds one snapshot entry
    for each such curve and a fresh numeric input, and the modal handler
    is the last host call. *)
Theorem invoke_with_eligible_curve st ev :
  Forall fcu_wf (curves st) ->
  Forall (arr_size_fits H) (curves st) ->
  context_ok st = true ->
  Exists (fun fcu => eligible H fcu = true) (curves st) ->
  exists st' dgo,
    graphkeys_decimate_invoke H st ev = Some (OPERATOR_RUNNING_MODAL, st') /\
    curves st' = curves st /\
    remove_ratio st'
    = clamp_ratio (fdiv (of_int (int_sub (ev_x ev) (winrct_xmin (region st))))
                        (of_int (winx (region st)))) /\
    customdata st' = Some dgo /\
    num dgo = num_calloc H /\
    bezt_arr_list dgo = snapshot_of H (curves st) /\
    length (bezt_arr_list dgo)
    = length (filter (fun fcu => eligible H fcu = true) (curves st)) /\
    last (events st') = Some WM_event_add_modal_handler.
Proof. exact (invoke_with_eligible_curve_aux st ev). Qed.

Lemma existsb_eligible cs :
  existsb (eligible H) cs = true <-> Exists (fun fcu => eligible H fcu = true) cs.
Proof.
  rewrite existsb_exists, Exists_exists.
  split; intros (x & Hx & He); exists x; (split; [|exact He]);
    now apply list_elem_of_In.
Qed.

Lemma not_existsb_eligible cs :
  existsb (eligible H) cs = false ->
  Forall (fun fcu => eligible H fcu = false) cs.
Proof.
  induction cs as [|fcu cs IH]; cbn; [constructor|].
  intros [H1 H2]%orb_false_elim. constructor; auto.
Qed.

(** X6.  On curves whose recorded lengths are right and whose byte
    counts fit a C [int], [graphkeys_decimate_invoke] returns, and it
    enters the modal state exactly when there is an editor context and
    some listed curve has a keyframe array; in every other case it returns
    [OPERATOR_CANCELLED] with the session data freed.  It never changes a
    curve, and without an editor context it reports nothing and leaves the
    ratio alone. *)
Theorem invoke_outcome st ev :
  Forall fcu_wf (curves st) ->
  Forall (arr_size_fits H) (curves st) ->
  exists ret st',
    graphkeys_decimate_invoke H st ev = Some (ret, st') /\
    ret = (if context_ok st && existsb (eligible H) (curves st)
           then OPERATOR_RUNNING_MODAL else OPERATOR_CANCELLED) /\
    curves st' = curves st /\
    (customdata st' = None <-> ret = OPERATOR_CANCELLED) /\
    (context_ok st = false ->
     remove_ratio st' = remove_ratio st /\
     events st' = events st ++ [WM_cursor_modal_set; WM_cursor_modal_restore;
                                ED_area_status_text None]).
Proof.
  intros Hwf Hfit.
  destruct (context_ok st) eqn:Hctx; cbn [andb].
  - destruct (existsb (eligible H) (curves st)) eqn:Hex.
    + apply existsb_eligible in Hex.
      destruct (invoke_with_eligible_curve_aux st ev Hwf Hfit Hctx Hex)
        as (st' & dgo & -> & Hc & _ & Hcd & _).
      eexists _, _. split; [reflexivity|].
      rewrite Hcd. repeat split; auto; try discriminate.
    + apply not_existsb_eligible in Hex.
      unfold graphkeys_decimate_invoke. cbn [context_ok set_customdata emit].
      rewrite Hctx. cbn [negb].
      unfold decimate_draw_status_header, decimate_mouse_update_percentage.
      cbn [num bezt_arr_list].
      pose proof (copy_loop_none H (curves st) [] [] Hex) as Hcopy.
      cbn [length app] in Hcopy.
      fold (ANIM_animdata_filter H (curves st)) in Hcopy.
      destruct (hasNumInput H (num_calloc H));
        cbn [curves emit RNA_property_float_set set_customdata];
        rewrite Hcopy; cbn [mbind option_bind bezt_arr_list];
        eexists _, _; (split; [reflexivity|]);
        unfold decimate_exit; cbn; repeat split; auto; discriminate.
  - unfold graphkeys_decimate_invoke. cbn [context_ok set_customdata emit].
    rewrite Hctx. cbn [negb]. eexists _, _. split; [reflexivity|].
    unfold decimate_exit. cbn.
    rewrite <- !app_assoc. repeat split; auto; discriminate.
Qed.

End DecimateMoreFacts.

Section DecimateSessionEnd.

Import Decimate DecimateUI.

Context (H : Host).

Implicit Types (st : State (NumInput H)) (ev : wmEvent).

Lemma modal_confirm st dgo ev :
  customdata st = Some dgo ->
  is_confirm ev = true ->
  graphkeys_decimate_modal H st ev
  = Some (OPERATOR_FINISHED, decimate_exit H st).
Proof.
  intros Hcd Hc. unfold graphkeys_decimate_modal. rewrite Hcd.
  cbn [mbind option_bind]. unfold is_confirm in Hc.
  destruct (ev_type ev); try discriminate;
    destruct (ev_val ev); try discriminate; reflexivity.
Qed.

Lemma invoke_running_context st0 ev st1 :
  graphkeys_decimate_invoke H st0 ev = Some (OPERATOR_RUNNING_MODAL, st1) ->
  context_ok st0 = true /\ mode st1 = mode st0 /\ context_ok st1 = true.
Proof.
  unfold graphkeys_decimate_invoke. cbn [context_ok set_customdata emit].
  destruct (context_ok st0) eqn:Hctx; cbn [negb]; [|discriminate].
  unfold decimate_draw_status_header, decimate_mouse_update_percentage.
  cbn [num bezt_arr_list].
  destruct (hasNumInput H (num_calloc H));
    cbn [curves emit RNA_property_float_set set_customdata];
    (destruct (copy_loop _ _ _ _) as [[|c l]|];
       cbn [mbind option_bind bezt_arr_list]; try discriminate);
    intros [= <-]; cbn; auto.
Qed.

(** X7.  Confirming keeps the preview.  In a session started on curves
    whose recorded lengths are right and whose byte counts fit a C [int],
    after any updates ending with the
    parameter [p], a press of the left mouse button, Return or keypad
    Enter returns [OPERATOR_FINISHED], frees the session data, and leaves
    every listed curve as [decimate_fcurve] made it from the curve of
    before the session with the clamped [p] and no error bound. *)
Theorem confirm_keeps_last_update st0 ev st1 ps p confirm :
  decimator_keeps_shape H ->
  Forall fcu_wf (curves st0) ->
  Forall (arr_size_fits H) (curves st0) ->
  graphkeys_decimate_invoke H st0 ev = Some (OPERATOR_RUNNING_MODAL, st1) ->
  is_confirm confirm = true ->
  exists st2 st3,
    updates H (ps ++ [p]) st1 = Some st2 /\
    graphkeys_decimate_modal H st2 confirm = Some (OPERATOR_FINISHED, st3) /\
    curves st3 = map (decimated_curve H (clamp_ratio p) FLT_MAX) (curves st0) /\
    customdata st3 = None.
Proof.
  intros Hk Hwf Hfit Hinv Hc.
  apply invoke_running in Hinv as (_ & Hact); try assumption.
  destruct (updates_active H (curves st0) ps st1 Hk Hact) as (m & Hm & Hactm).
  destruct (update_active H (curves st0) p m Hk Hactm)
    as (st2 & Hu & Hcs & (dgo & Hcd & _)).
  exists st2, (decimate_exit H st2).
  rewrite updates_snoc, Hm. cbn [mbind option_bind].
  split; [exact Hu|]. split; [exact (modal_confirm st2 dgo confirm Hcd Hc)|].
  unfold decimate_exit. rewrite Hcd. cbn.
  now rewrite Hcs, (restored_all_wf H _ Hwf).
Qed.

(** X8.  The interactive preview and the executed operator agree.  On
    curves whose recorded lengths are right and whose byte counts fit a C
    [int], and in ratio mode, the curves
    after an update with [p] in a session equal the curves after
    [graphkeys_decimate_exec] run on the pre-session state with the ratio
    property set to [p], whenever the clamped [p] is not zero. *)
Theorem update_matches_exec st0 ev st1 p :
  decimator_keeps_shape H ->
  Forall fcu_wf (curves st0) ->
  Forall (arr_size_fits H) (curves st0) ->
  graphkeys_decimate_invoke H st0 ev = Some (OPERATOR_RUNNING_MODAL, st1) ->
  mode st0 = DECIM_RATIO ->
  feq (clamp_ratio p) fzero = false ->
  exists st2,
    update H p st1 = Some st2 /\
    graphkeys_decimate_exec H (RNA_property_float_set H p st0)
    = (OPERATOR_FINISHED,
       emit H WM_event_add_notifier
         (decimate_graph_keys H (clamp_ratio p) FLT_MAX
            (RNA_property_float_set H p st0))) /\
    curves st2
    = curves (snd (graphkeys_decimate_exec H (RNA_property_float_set H p st0))).
Proof.
  intros Hk Hwf Hfit Hinv Hmode Hnz.
  destruct (invoke_running_context st0 ev st1 Hinv) as (Hctx & _).
  apply invoke_running in Hinv as (_ & Hact); try assumption.
  destruct (update_active H (curves st0) p st1 Hk Hact) as (st2 & Hu & Hcs & _).
  exists st2. split; [exact Hu|].
  assert (E : graphkeys_decimate_exec H (RNA_property_float_set H p st0)
              = (OPERATOR_FINISHED,
                 emit H WM_event_add_notifier
                   (decimate_graph_keys H (clamp_ratio p) FLT_MAX
                      (RNA_property_float_set H p st0)))).
  { unfold graphkeys_decimate_exec.
    cbn [context_ok mode remove_ratio RNA_property_float_set].
    rewrite Hctx, Hmode, Hnz. reflexivity. }
  split; [exact E|]. rewrite E, Hcs. cbn [snd].
  rewrite decimate_graph_keys_eq. cbn.
  now rewrite (restored_all_wf H _ Hwf).
Qed.

(** X9.  An event that is neither a mouse move, nor a press of a key, nor
    a confirming or cancelling press is answered with
    [OPERATOR_RUNNING_MODAL] (with [OPERATOR_PASS_THROUGH] for a key) and
    changes nothing at all; a pressed key the numeric input does not
    handle is passed through with the curves, the ratio, the snapshot and
    the host calls as they were. *)
Theorem modal_ignored_events st dgo ev :
  customdata st = Some dgo ->
  is_mousemove ev = false ->
  is_confirm ev = false ->
  is_cancel ev = false ->
  (is_key_press ev = false ->
   exists ret,
     graphkeys_decimate_modal H st ev = Some (ret, st) /\
     still_modal ret = true /\
     has_pass_through ret
     = match ev_type ev with EVT_OTHER _ => true | _ => false end) /\
  (is_key_press ev = true ->
   fst (handleNumInput H (num dgo) ev) = false ->
   exists st',
     graphkeys_decimate_modal H st ev
     = Some (Z.lor OPERATOR_RUNNING_MODAL OPERATOR_PASS_THROUGH, st') /\
     curves st' = curves st /\
     remove_ratio st' = remove_ratio st /\
     events st' = events st /\
     (bezt_arr_list <$> customdata st') = Some (bezt_arr_list dgo)).
Proof.
  intros Hcd Hm Hco Hca.
  unfold graphkeys_decimate_modal. rewrite Hcd. cbn [mbind option_bind].
  unfold is_mousemove in Hm. unfold is_confirm in Hco. unfold is_cancel in Hca.
  unfold is_key_press.
  destruct (ev_type ev) eqn:Ht; try discriminate;
    destruct (ev_val ev) eqn:Hv; try discriminate;
    (split; [intros Hk; try discriminate; eexists; repeat split; reflexivity
            | intros Hk; try discriminate]).
  intros Hh. destruct (handleNumInput H (num dgo) ev) as [handled n].
  cbn [fst] in Hh. subst handled. eexists. split; [reflexivity|].
  cbn. auto.
Qed.

End DecimateSessionEnd.

Section PollPropertyFacts.

Import DecimateUI.

Local Open Scope string_scope.

Lemma string_eqb_prefix_remove (prop_id : string) :
  STREQ prop_id "remove_ratio" = true \/ STREQ prop_id "remove_error_margin" = true ->
  STRPREFIX prop_id "remove" = true.
Proof.
  unfold STREQ. intros [E|E]; apply String.eqb_eq in E; subst; reflexivity.
Qed.

(** X10.  [graphkeys_decimate_poll_property] hides exactly two things: the
    property ["remove_ratio"] when the mode is not [DECIM_RATIO], and the
    property ["remove_error_margin"] when the mode is not [DECIM_ERROR];
    every other property is shown in every mode. *)
Theorem poll_property_hides (mode : Z) (prop_id : string) :
  graphkeys_decimate_poll_property mode prop_id = false <->
  (prop_id = "remove_ratio" /\ mode <> DECIM_RATIO_value) \/
  (prop_id = "remove_error_margin" /\ mode <> DECIM_ERROR_value).
Proof.
  unfold graphkeys_decimate_poll_property.
  destruct (STREQ prop_id "remove_ratio") eqn:E1;
    destruct (STREQ prop_id "remove_error_margin") eqn:E2.
  - apply String.eqb_eq in E1, E2. subst. discriminate.
  - rewrite (string_eqb_prefix_remove prop_id (or_introl E1)).
    apply String.eqb_eq in E1. subst. cbn [andb].
    destruct (Z.eqb_spec mode DECIM_RATIO_value); cbn [negb]; split;
      try discriminate; try tauto.
    + intros [[_ Hn]|[Hd _]]; [contradiction | discriminate].
  - rewrite (string_eqb_prefix_remove prop_id (or_intror E2)).
    apply String.eqb_eq in E2. subst. cbn [andb].
    destruct (Z.eqb_spec mode DECIM_ERROR_value); cbn [negb]; split;
      try discriminate; try tauto.
    + intros [[Hd _]|[_ Hn]]; [discriminate | contradiction].
  - apply String.eqb_neq in E1, E2. cbn [andb].
    destruct (STRPREFIX prop_id "remove"); split; try discriminate; tauto.
Qed.

End PollPropertyFacts.

(* ====================================================================== *)
(** * Euler filter: grouping and outcome *)
(* ====================================================================== *)

Section EulerGroupFacts.

Import Euler.

Local Open Scope Z_scope.

Implicit Types (cs : list FCurve) (g : Grouping) (ale : bAnimListElem).

Lemma replace_last_length {A} (l : list A) (x y : A) :
  last l = Some x -> length (removelast l ++ [y]) = length l.
Proof.
  intros Hl. destruct l as [|a l] using rev_ind; [discriminate|].
  rewrite removelast_last, !length_app. reflexivity.
Qed.

Lemma group_step_ok cs g ale :
  grouping_ok g ->
  grouping_ok (group_step cs g ale) /\
  length (tagged (group_step cs g ale))
  = (length (tagged g) + (if euler_channel cs ale then 1 else 0))%nat.
Proof.
  intros (Hn & Hle & Hne). unfold group_step, euler_channel.
  destruct (cs !! ale_data ale) as [fcu|]; [|split; [repeat split; auto | cbn; lia]].
  destruct (strstr (rna_path fcu) "rotation_euler"); cbn [negb andb];
    [|split; [repeat split; auto | cbn; lia]].
  destruct ((array_index fcu =? 0) || (array_index fcu =? 1) || (array_index fcu =? 2));
    cbn [negb]; [|split; [repeat split; auto | cbn; lia]].
  destruct (last (euler_groups g)) as [euf|] eqn:Hl.
  - destruct (same_id (euf_id euf) (ale_id ale) && _); unfold grouping_ok; cbn.
    + rewrite (replace_last_length _ euf _ Hl), !length_app. cbn.
      repeat split; try lia.
      intros _ Hnil. apply (f_equal length) in Hnil.
      rewrite length_app in Hnil. cbn in Hnil. lia.
    + rewrite !length_app. cbn. repeat split; try lia.
      intros _ Hnil. apply (f_equal length) in Hnil.
      rewrite length_app in Hnil. cbn in Hnil. lia.
  - unfold grouping_ok; cbn. rewrite !length_app. cbn. repeat split; try lia.
    intros _ Hnil. apply (f_equal length) in Hnil.
    rewrite length_app in Hnil. cbn in Hnil. lia.
Qed.

Lemma group_fold_ok cs anim_data : forall g,
  grouping_ok g ->
  let g' := fold_left (group_step cs) anim_data g in
  grouping_ok g' /\
  length (tagged g')
  = (length (tagged g)
     + length (filter (fun ale => euler_channel cs ale = true) anim_data))%nat.
Proof.
  induction anim_data as [|ale l IH]; intros g Hg; cbn [fold_left].
  - cbv zeta. split; [exact Hg | cbn; lia].
  - destruct (group_step_ok cs g ale Hg) as (Hg1 & Hlen1).
    destruct (IH _ Hg1) as (Hg2 & Hlen2). cbv zeta in *.
    split; [exact Hg2|]. rewrite Hlen2, Hlen1, filter_cons.
    destruct (decide (euler_channel cs ale = true)) as [E|E].
    + rewrite E. cbn. lia.
    + apply not_true_is_false in E. rewrite E. lia.
Qed.

Lemma filter_none_length {A} (P : A -> bool) (l : list A) :
  length (filter (fun x => P x = true) l) = 0%nat <-> Forall (fun x => P x = false) l.
Proof.
  induction l as [|a l IH]; [split; [constructor | reflexivity]|].
  rewrite filter_cons. destruct (decide (P a = true)) as [E|E].
  - cbn. split; [lia|]. intros Hf. apply Forall_cons in Hf as [Ha _]. congruence.
  - apply not_true_is_false in E. rewrite IH. split.
    + intros Hf. now constructor.
    + intros Hf. now apply Forall_cons in Hf as [_ Hf].
Qed.

Lemma group_count_facts cs anim_data reports :
  let g := euler_filter_group_channels cs anim_data reports in
  r_num_groups g = Z.of_nat (length (euler_groups g)) /\
  (length (euler_groups g) <= length (tagged g) <= length anim_data)%nat /\
  (r_num_groups g = 0 <->
   Forall (fun ale => euler_channel cs ale = false) anim_data).
Proof.
  unfold euler_filter_group_channels.
  pose proof (group_fold_ok cs anim_data
                {| euler_groups := []; group_reports := reports;
                   r_num_groups := 0; tagged := [] |}) as Hfold.
  cbv zeta in *. destruct Hfold as ((Hn & Hle & Hne) & Hlen).
  { unfold grouping_ok. cbn. repeat split; auto. }
  set (g := fold_left _ _ _) in *. cbn [tagged length] in Hlen.
  pose proof (length_filter (fun ale => euler_channel cs ale = true) anim_data) as Hf.
  repeat split; try lia.
  - intros H0. apply filter_none_length.
    destruct (euler_groups g) eqn:Hg; [|cbn in Hn; lia].
    destruct (tagged g) eqn:Ht; [cbn in Hlen; lia|].
    exfalso. now apply Hne.
  - intros Hall. apply filter_none_length in Hall.
    rewrite Hn. destruct (euler_groups g); [reflexivity|]. cbn in Hle. lia.
Qed.

(** X11.  The counter [euler_filter_group_channels] returns is the number
    of groups in the list it returns (the assertion made by the caller);
    there are never more groups than tagged channels nor more tagged
    channels than channels; and no group is found exactly when no channel
    is a ["rotation_euler"] curve with array index 0, 1 or 2. *)
Theorem group_count_is_list_length cs anim_data reports :
  let g := euler_filter_group_channels cs anim_data reports in
  r_num_groups g = Z.of_nat (length (euler_groups g)) /\
  (length (euler_groups g) <= length (tagged g) <= length anim_data)%nat /\
  (r_num_groups g = 0 <->
   Forall (fun ale => euler_channel cs ale = false) anim_data).
Proof. exact (group_count_facts cs anim_data reports). Qed.

End EulerGroupFacts.

Section EulerOutcomeFacts.

Import Euler.

Local Open Scope Z_scope.

Context {Quat : Type}.
Variable eul_to_quat : float * float * float -> Quat.
Variable quat_to_compatible_eul :
  float * float * float -> Quat -> float * float * float.
Variable move : Decimate.BezTriple -> float -> Decimate.BezTriple.

Local Abbreviation quaternion_filter :=
  (euler_filter_quaternion Quat eul_to_quat quat_to_compatible_eul move).

Implicit Types (cs : list FCurve) (euf : tEulerFilter).

(** A group that fails is left as it was. *)
Lemma quaternion_failure_keeps_curves euf cs reps cs' reps' :
  quaternion_filter euf cs reps = Some (false, cs', reps') -> cs' = cs.
Proof.
  unfold euler_filter_quaternion.
  destruct (fcurves euf) as [[[x|] [y|]] [z|]]; intros Hq;
    try (destruct (euf_id euf); cbn in Hq; [|discriminate];
         now injection Hq as <- _).
  destruct (cs !! x) as [fx|]; [|discriminate].
  destruct (cs !! y) as [fy|]; [|discriminate].
  destruct (cs !! z) as [fz|]; [|discriminate].
  cbn [mbind option_bind] in Hq.
  destruct (negb (totvert fx =? totvert fy) || negb (totvert fy =? totvert fz)).
  { destruct (euf_id euf); cbn in Hq; [|discriminate]. now injection Hq as <- _. }
  destruct (totvert fx <? 2); [discriminate|].
  destruct (key_value cs x 0); cbn [mbind option_bind] in Hq; [|discriminate].
  destruct (key_value cs y 0); cbn [mbind option_bind] in Hq; [|discriminate].
  destruct (key_value cs z 0); cbn [mbind option_bind] in Hq; [|discriminate].
  destruct (fold_left _ _ _) as [[cs2 le]|]; cbn in Hq; discriminate.
Qed.

(** X12.  The flag [euler_filter_quaternion] returns tells what it did.
    It returns [false] exactly on its two report paths: a component of
    the group is missing, or the three curves are not equally keyed; one
    report is added, naming the group's ID, and no curve is changed.  It
    returns [true] only for a full group of equally keyed curves; no
    report is added, and with fewer than two keys no curve is changed
    either. *)
Theorem euler_quaternion_outcome euf cs reps ok cs' reps' :
  euler_filter_quaternion Quat eul_to_quat quat_to_compatible_eul move euf cs reps
   = Some (ok, cs', reps') ->
  let '(x, y, z) := fcurves euf in
  if ok then
    reps' = reps /\
    exists ix iy iz fx fy fz,
      x = Some ix /\ y = Some iy /\ z = Some iz /\
      cs !! ix = Some fx /\ cs !! iy = Some fy /\ cs !! iz = Some fz /\
      totvert fx = totvert fy /\ totvert fy = totvert fz /\
      (totvert fx < 2 -> cs' = cs)
  else
    cs' = cs /\
    exists i,
      euf_id euf = Some i /\
      ((reps' = reps ++ [MissingComponents (bool_decide (x = None))
                           (bool_decide (y = None)) (bool_decide (z = None))
                           (id_name i) (euf_rna_path euf)] /\
        (x = None \/ y = None \/ z = None)) \/
       (reps' = reps ++ [NotEquallyKeyed (id_name i) (euf_rna_path euf)] /\
        exists ix iy iz fx fy fz,
          x = Some ix /\ y = Some iy /\ z = Some iz /\
          cs !! ix = Some fx /\ cs !! iy = Some fy /\ cs !! iz = Some fz /\
          ~ (totvert fx = totvert fy /\ totvert fy = totvert fz))).
Proof.
  unfold euler_filter_quaternion.
  destruct (fcurves euf) as [[[x|] [y|]] [z|]]; intros Hq;
    try (destruct (euf_id euf) as [i|]; cbn in Hq; [|discriminate];
         injection Hq as <- <- <-; split; [reflexivity|];
         exists i; split; [reflexivity|]; left; split; [reflexivity|]; tauto).
  destruct (cs !! x) as [fx|] eqn:Ex; [|discriminate].
  destruct (cs !! y) as [fy|] eqn:Ey; [|discriminate].
  destruct (cs !! z) as [fz|] eqn:Ez; [|discriminate].
  cbn [mbind option_bind] in Hq.
  destruct (totvert fx =? totvert fy) eqn:Exy;
    destruct (totvert fy =? totvert fz) eqn:Eyz; cbn [negb orb] in Hq;
    try (destruct (euf_id euf) as [i|]; cbn in Hq; [|discriminate];
         injection Hq as <- <- <-; split; [reflexivity|];
         exists i; split; [reflexivity|]; right; split; [reflexivity|];
         exists x, y, z, fx, fy, fz; repeat split; try reflexivity;
         try assumption;
         intros [H1 H2]; apply Z.eqb_neq in Exy || apply Z.eqb_neq in Eyz;
         congruence).
  apply Z.eqb_eq in Exy, Eyz.
  destruct (totvert fx <? 2) eqn:Elt.
  { injection Hq as <- <- <-. split; [reflexivity|].
    exists x, y, z, fx, fy, fz. repeat split; auto. }
  apply Z.ltb_ge in Elt.
  destruct (key_value cs x 0); cbn [mbind option_bind] in Hq; [|discriminate].
  destruct (key_value cs y 0); cbn [mbind option_bind] in Hq; [|discriminate].
  destruct (key_value cs z 0); cbn [mbind option_bind] in Hq; [|discriminate].
  destruct (fold_left _ _ _) as [[cs2 le]|]; cbn in Hq; [|discriminate].
  injection Hq as <- <- <-. split; [reflexivity|].
  exists x, y, z, fx, fy, fz. repeat split; auto. lia.
Qed.

End EulerOutcomeFacts.

Section EulerExecFacts.

Import Euler.

Local Open Scope Z_scope.

(** The call made by [euler_filter_perform_filter], whatever it does. *)
Variable quaternion_call :
  tEulerFilter -> list FCurve -> list Report
  -> option (bool * list FCurve * list Report).

Local Abbreviation filter_exec := (graphkeys_euler_filter_exec quaternion_call).

(** X13.  When no channel is a ["rotation_euler"] curve with array index
    0, 1 or 2, the operator changes no curve, makes no host call, and
    returns [OPERATOR_CANCELLED] after the report "No Euler Rotation
    F-Curves to fix up"; it never touches a keyframe array, so it does not
    fail even on baked curves. *)
Theorem euler_filter_nothing_to_fix st :
  context_ok st = true ->
  Forall (fun ale => euler_channel (curves st) ale = false) (anim_data st) ->
  exists st',
    filter_exec st = Some (OPERATOR_CANCELLED, st') /\
    curves st' = curves st /\
    events st' = events st /\
    last (reports st') = Some NoEulerCurves.
Proof.
  intros Hctx Hall. unfold graphkeys_euler_filter_exec. rewrite Hctx. cbn [negb].
  destruct (group_count_facts (curves st) (anim_data st) (reports st))
    as (_ & _ & Hz).
  apply Hz in Hall. cbv zeta in Hall. rewrite Hall. cbn.
  eexists. split; [reflexivity|]. cbn. rewrite last_snoc. auto.
Qed.

End EulerExecFacts.


Section EulerShapeFacts.

Import Euler.

Local Open Scope Z_scope.

Context {Quat : Type}.
Variable eul_to_quat : float * float * float -> Quat.
Variable quat_to_compatible_eul :
  float * float * float -> Quat -> float * float * float.
Variable move : Decimate.BezTriple -> float -> Decimate.BezTriple.

Local Abbreviation step := (keyframe_step Quat eul_to_quat quat_to_compatible_eul move).
Local Abbreviation quaternion_filter :=
  (euler_filter_quaternion Quat eul_to_quat quat_to_compatible_eul move).

Implicit Types (cs : list FCurve) (euf : tEulerFilter) (a b c : FCurve).

Lemma same_shape_refl a : same_shape a a.
Proof. unfold same_shape. auto. Qed.

Lemma same_shape_trans a b c : same_shape a b -> same_shape b c -> same_shape a c.
Proof. unfold same_shape. intros (?&?&?&?&?) (?&?&?&?&?). repeat split; congruence. Qed.

Lemma shape_all_refl cs : Forall2 same_shape cs cs.
Proof. apply Forall_Forall2_diag, Forall_forall. intros; apply same_shape_refl. Qed.

Lemma shape_all_trans cs1 cs2 cs3 :
  Forall2 same_shape cs1 cs2 -> Forall2 same_shape cs2 cs3 ->
  Forall2 same_shape cs1 cs3.
Proof. apply Forall2_trans. exact same_shape_trans. Qed.

Lemma same_shape_keyed a b : curve_keyed a -> same_shape a b -> curve_keyed b.
Proof.
  intros (pts & Hb & Ht) (_ & _ & Htv & Hlen & _). unfold curve_keyed.
  rewrite Hb in Hlen. destruct (bezt b) as [pts'|]; [|discriminate].
  injection Hlen as Hlen. exists pts'. split; [reflexivity|]. congruence.
Qed.

Lemma shape_all_keyed cs cs' :
  Forall curve_keyed cs -> Forall2 same_shape cs cs' -> Forall curve_keyed cs'.
Proof.
  intros Hk Hs. induction Hs as [|a b cs cs' Hab _ IH]; [constructor|].
  apply Forall_cons in Hk as [Ha Hk]. constructor; eauto using same_shape_keyed.
Qed.

(** Moving the value of a key that is not the first one. *)
Lemma move_key_shape cs fcu (i : nat) v cs' :
  move_key move cs fcu i v = Some cs' -> (1 <= i)%nat ->
  Forall2 same_shape cs cs'.
Proof.
  unfold move_key. intros Hm Hi.
  destruct (cs !! fcu) as [c0|] eqn:Hc; [|discriminate]. cbn in Hm.
  destruct (bezt c0) as [pts|] eqn:Hb; [|discriminate]. cbn in Hm.
  destruct (pts !! i) as [k|] eqn:Hk; [|discriminate]. cbn in Hm.
  injection Hm as <-.
  rewrite <- (list_insert_id cs fcu c0 Hc) at 1.
  apply Forall2_insert; [apply shape_all_refl|].
  unfold same_shape. cbn. rewrite Hb. cbn. rewrite length_insert.
  repeat split. rewrite !head_lookup.
  apply list_lookup_insert_ne. lia.
Qed.

Lemma keyframe_step_shape x y z cs le (i : nat) cs' le' :
  step x y z (Some (cs, le)) i = Some (cs', le') -> (1 <= i)%nat ->
  Forall2 same_shape cs cs'.
Proof.
  unfold keyframe_step. cbn [mbind option_bind]. intros Hs Hi.
  destruct (key_value cs x i); [|discriminate]. cbn [mbind option_bind] in Hs.
  destruct (key_value cs y i); [|discriminate]. cbn [mbind option_bind] in Hs.
  destruct (key_value cs z i); [|discriminate]. cbn [mbind option_bind] in Hs.
  destruct (quat_to_compatible_eul le _) as [[l0 l1] l2].
  destruct (move_key move cs x i l0) as [cs1|] eqn:H1; [|discriminate].
  cbn [mbind option_bind] in Hs.
  destruct (move_key move cs1 y i l1) as [cs2|] eqn:H2; [|discriminate].
  cbn [mbind option_bind] in Hs.
  destruct (move_key move cs2 z i l2) as [cs3|] eqn:H3; [|discriminate].
  cbn [mbind option_bind] in Hs. injection Hs as <- _.
  apply (shape_all_trans cs cs1); [exact (move_key_shape _ _ _ _ _ H1 Hi)|].
  apply (shape_all_trans cs1 cs2); [exact (move_key_shape _ _ _ _ _ H2 Hi)|].
  exact (move_key_shape _ _ _ _ _ H3 Hi).
Qed.

Lemma fold_step_none x y z (l : list nat) : fold_left (step x y z) l None = None.
Proof. induction l; [reflexivity | exact IHl]. Qed.

Lemma fold_step_shape x y z (l : list nat) : forall cs le cs' le',
  fold_left (step x y z) l (Some (cs, le)) = Some (cs', le') ->
  Forall (fun i => (1 <= i)%nat) l ->
  Forall2 same_shape cs cs'.
Proof.
  induction l as [|i l IH]; intros cs le cs' le' Hf Hl; cbn [fold_left] in Hf.
  - injection Hf as <- _. apply shape_all_refl.
  - apply Forall_cons in Hl as [Hi Hl].
    destruct (step x y z (Some (cs, le)) i) as [[cs1 le1]|] eqn:Hs.
    + eapply shape_all_trans; [eapply keyframe_step_shape | eapply IH]; eauto.
    + now rewrite fold_step_none in Hf.
Qed.

(** Curves that are not the one moved are left alone. *)
Lemma move_key_frame cs fcu (k : nat) v cs' (i : nat) :
  move_key move cs fcu k v = Some cs' -> fcu <> i -> cs' !! i = cs !! i.
Proof.
  unfold move_key. intros Hm Hi.
  destruct (cs !! fcu) as [c0|]; [|discriminate]. cbn in Hm.
  destruct (bezt c0) as [pts|]; [|discriminate]. cbn in Hm.
  destruct (pts !! k) as [key0|]; [|discriminate]. cbn in Hm.
  injection Hm as <-. now apply list_lookup_insert_ne.
Qed.

Lemma keyframe_step_frame x y z cs le (k : nat) cs' le' (i : nat) :
  step x y z (Some (cs, le)) k = Some (cs', le') ->
  x <> i -> y <> i -> z <> i -> cs' !! i = cs !! i.
Proof.
  unfold keyframe_step. cbn [mbind option_bind]. intros Hs Hx Hy Hz.
  destruct (key_value cs x k); [|discriminate]. cbn [mbind option_bind] in Hs.
  destruct (key_value cs y k); [|discriminate]. cbn [mbind option_bind] in Hs.
  destruct (key_value cs z k); [|discriminate]. cbn [mbind option_bind] in Hs.
  destruct (quat_to_compatible_eul le _) as [[l0 l1] l2].
  destruct (move_key move cs x k l0) as [cs1|] eqn:H1; [|discriminate].
  cbn [mbind option_bind] in Hs.
  destruct (move_key move cs1 y k l1) as [cs2|] eqn:H2; [|discriminate].
  cbn [mbind option_bind] in Hs.
  destruct (move_key move cs2 z k l2) as [cs3|] eqn:H3; [|discriminate].
  cbn [mbind option_bind] in Hs. injection Hs as <- _.
  rewrite (move_key_frame _ _ _ _ _ _ H3 Hz), (move_key_frame _ _ _ _ _ _ H2 Hy).
  exact (move_key_frame _ _ _ _ _ _ H1 Hx).
Qed.

Lemma fold_step_frame x y z (l : list nat) (i : nat) : forall cs le cs' le',
  fold_left (step x y z) l (Some (cs, le)) = Some (cs', le') ->
  x <> i -> y <> i -> z <> i -> cs' !! i = cs !! i.
Proof.
  induction l as [|k l IH]; intros cs le cs' le' Hf Hx Hy Hz; cbn [fold_left] in Hf.
  - now injection Hf as <- _.
  - destruct (step x y z (Some (cs, le)) k) as [[cs1 le1]|] eqn:Hs.
    + rewrite (IH _ _ _ _ Hf Hx Hy Hz).
      exact (keyframe_step_frame _ _ _ _ _ _ _ _ _ Hs Hx Hy Hz).
    + now rewrite fold_step_none in Hf.
Qed.

Lemma seq_from_one (n : nat) : Forall (fun i => (1 <= i)%nat) (seq 1 n).
Proof. apply Forall_forall. intros i Hi%list_elem_of_In%in_seq. lia. Qed.

Lemma quaternion_shape euf cs reps ok cs' reps' :
  quaternion_filter euf cs reps = Some (ok, cs', reps') ->
  Forall2 same_shape cs cs'.
Proof.
  destruct ok; [|intros ->%quaternion_failure_keeps_curves; apply shape_all_refl].
  unfold euler_filter_quaternion.
  destruct (fcurves euf) as [[[x|] [y|]] [z|]]; intros Hq;
    try (destruct (euf_id euf); cbn in Hq; discriminate).
  destruct (cs !! x) as [fx|]; [|discriminate].
  destruct (cs !! y) as [fy|]; [|discriminate].
  destruct (cs !! z) as [fz|]; [|discriminate].
  cbn [mbind option_bind] in Hq.
  destruct (negb (totvert fx =? totvert fy) || negb (totvert fy =? totvert fz)).
  { destruct (euf_id euf); cbn in Hq; discriminate. }
  destruct (totvert fx <? 2).
  { injection Hq as <- _. apply shape_all_refl. }
  destruct (key_value cs x 0); cbn [mbind option_bind] in Hq; [|discriminate].
  destruct (key_value cs y 0); cbn [mbind option_bind] in Hq; [|discriminate].
  destruct (key_value cs z 0); cbn [mbind option_bind] in Hq; [|discriminate].
  destruct (fold_left _ _ _) as [[cs2 le]|] eqn:Hf; cbn in Hq; [|discriminate].
  injection Hq as <- _.
  eapply fold_step_shape; [exact Hf | apply seq_from_one].
Qed.

(** X14.  Whatever the rotation library computes,
    [euler_filter_quaternion] only moves values of keys after the first
    one: when it returns, every curve has its path, its array index, its
    recorded length and its number of keys as before, its first key is
    untouched, and no curve is added or removed; a curve outside the
    group is not changed at all. *)
Theorem euler_quaternion_keeps_shape euf cs reps ok cs' reps' (i : nat) :
  euler_filter_quaternion Quat eul_to_quat quat_to_compatible_eul move euf cs reps
   = Some (ok, cs', reps') ->
  Forall2 same_shape cs cs' /\
  (let '(x, y, z) := fcurves euf in
   x <> Some i -> y <> Some i -> z <> Some i -> cs' !! i = cs !! i).
Proof.
  intros Hq. split; [exact (quaternion_shape _ _ _ _ _ _ Hq)|].
  destruct ok;
    [|apply quaternion_failure_keeps_curves in Hq; subst cs';
      destruct (fcurves euf) as [[x y] z]; reflexivity].
  revert Hq. unfold euler_filter_quaternion.
  destruct (fcurves euf) as [[[x|] [y|]] [z|]]; intros Hq;
    try (destruct (euf_id euf); cbn in Hq; discriminate).
  intros Hx Hy Hz.
  destruct (cs !! x) as [fx|]; [|discriminate].
  destruct (cs !! y) as [fy|]; [|discriminate].
  destruct (cs !! z) as [fz|]; [|discriminate].
  cbn [mbind option_bind] in Hq.
  destruct (negb (totvert fx =? totvert fy) || negb (totvert fy =? totvert fz)).
  { destruct (euf_id euf); cbn in Hq; discriminate. }
  destruct (totvert fx <? 2).
  { injection Hq as <- _. reflexivity. }
  destruct (key_value cs x 0); cbn [mbind option_bind] in Hq; [|discriminate].
  destruct (key_value cs y 0); cbn [mbind option_bind] in Hq; [|discriminate].
  destruct (key_value cs z 0); cbn [mbind option_bind] in Hq; [|discriminate].
  destruct (fold_left _ _ _) as [[cs2 le]|] eqn:Hf; cbn in Hq; [|discriminate].
  injection Hq as <- _.
  eapply fold_step_frame; [exact Hf | congruence | congruence | congruence].
Qed.

End EulerShapeFacts.

Section EulerSafetyFacts.

Import Euler.

Local Open Scope Z_scope.

Context {Quat : Type}.
Variable eul_to_quat : float * float * float -> Quat.
Variable quat_to_compatible_eul :
  float * float * float -> Quat -> float * float * float.
Variable move : Decimate.BezTriple -> float -> Decimate.BezTriple.

Local Abbreviation step := (keyframe_step Quat eul_to_quat quat_to_compatible_eul move).
Local Abbreviation quaternion_filter :=
  (euler_filter_quaternion Quat eul_to_quat quat_to_compatible_eul move).

Implicit Types (cs : list FCurve) (euf : tEulerFilter) (g : Grouping).

Lemma curve_length_shape cs cs' x n :
  Forall2 same_shape cs cs' -> curve_length cs x n -> curve_length cs' x n.
Proof.
  intros Hs (f & Hf & Hn).
  destruct (Forall2_lookup_l _ _ _ _ _ Hs Hf) as (f' & Hf' & Hsh).
  exists f'. split; [exact Hf'|]. destruct Hsh as (_ & _ & Ht & _). congruence.
Qed.

Lemma keyed_lookup cs x n (i : nat) :
  Forall curve_keyed cs -> curve_length cs x n -> Z.of_nat i < n ->
  exists f pts k, cs !! x = Some f /\ bezt f = Some pts /\ pts !! i = Some k.
Proof.
  intros Hk (f & Hf & Hn) Hi.
  destruct (Forall_lookup_1 _ _ _ _ Hk Hf) as (pts & Hb & Ht).
  destruct (lookup_lt_is_Some_2 pts i) as [k Hp]; [lia|].
  eauto 10.
Qed.

Lemma key_value_total cs x n (i : nat) :
  Forall curve_keyed cs -> curve_length cs x n -> Z.of_nat i < n ->
  is_Some (key_value cs x i).
Proof.
  intros Hk Hx Hi. destruct (keyed_lookup cs x n i Hk Hx Hi) as (f & pts & k & Hf & Hb & Hp).
  unfold key_value. rewrite Hf. cbn. rewrite Hb. cbn. rewrite Hp. cbn. eauto.
Qed.

Lemma move_key_total cs x n (i : nat) v :
  Forall curve_keyed cs -> curve_length cs x n -> Z.of_nat i < n ->
  is_Some (move_key move cs x i v).
Proof.
  intros Hk Hx Hi. destruct (keyed_lookup cs x n i Hk Hx Hi) as (f & pts & k & Hf & Hb & Hp).
  unfold move_key. rewrite Hf. cbn. rewrite Hb. cbn. rewrite Hp. cbn. eauto.
Qed.

Lemma keyframe_step_total cs x y z n le (i : nat) :
  Forall curve_keyed cs ->
  curve_length cs x n -> curve_length cs y n -> curve_length cs z n ->
  (1 <= i)%nat -> Z.of_nat i < n ->
  exists cs' le', step x y z (Some (cs, le)) i = Some (cs', le').
Proof.
  intros Hk Hx Hy Hz H1 Hi. unfold keyframe_step. cbn [mbind option_bind].
  destruct (key_value_total cs x n i Hk Hx Hi) as [ex ->].
  destruct (key_value_total cs y n i Hk Hy Hi) as [ey ->].
  destruct (key_value_total cs z n i Hk Hz Hi) as [ez ->].
  cbn [mbind option_bind].
  destruct (quat_to_compatible_eul le _) as [[l0 l1] l2].
  destruct (move_key_total cs x n i l0 Hk Hx Hi) as [cs1 E1]. rewrite E1.
  cbn [mbind option_bind].
  pose proof (move_key_shape move _ _ _ _ _ E1 H1) as S1.
  pose proof (shape_all_keyed _ _ Hk S1) as K1.
  destruct (move_key_total cs1 y n i l1 K1 (curve_length_shape _ _ _ _ S1 Hy) Hi)
    as [cs2 E2]. rewrite E2. cbn [mbind option_bind].
  pose proof (move_key_shape move _ _ _ _ _ E2 H1) as S2.
  pose proof (shape_all_keyed _ _ K1 S2) as K2.
  destruct (move_key_total cs2 z n i l2 K2
              (curve_length_shape _ _ _ _ S2 (curve_length_shape _ _ _ _ S1 Hz)) Hi)
    as [cs3 E3]. rewrite E3. cbn [mbind option_bind]. eauto.
Qed.

Lemma fold_step_total x y z n (l : list nat) : forall cs le,
  Forall curve_keyed cs ->
  curve_length cs x n -> curve_length cs y n -> curve_length cs z n ->
  Forall (fun i => (1 <= i)%nat /\ Z.of_nat i < n) l ->
  exists cs' le', fold_left (step x y z) l (Some (cs, le)) = Some (cs', le').
Proof.
  induction l as [|i l IH]; intros cs le Hk Hx Hy Hz Hl; cbn [fold_left]; [eauto|].
  apply Forall_cons in Hl as [[H1 Hi] Hl].
  destruct (keyframe_step_total cs x y z n le i Hk Hx Hy Hz H1 Hi) as (cs1 & le1 & E).
  rewrite E.
  pose proof (keyframe_step_shape eul_to_quat quat_to_compatible_eul move
                _ _ _ _ _ _ _ _ E H1) as S1.
  apply IH; eauto using shape_all_keyed, curve_length_shape.
Qed.

Lemma quaternion_total euf cs reps :
  Forall curve_keyed cs -> group_valid (length cs) euf ->
  is_Some (quaternion_filter euf cs reps).
Proof.
  intros Hk [Hid Hv]. unfold euler_filter_quaternion.
  destruct (euf_id euf) as [id|] eqn:Eid; [clear Hid | now destruct Hid].
  destruct (fcurves euf) as [[[x|] [y|]] [z|]]; cbn [mbind option_bind]; eauto.
  destruct Hv as (Hx & Hy & Hz).
  destruct (lookup_lt_is_Some_2 cs x (Hx _ eq_refl)) as [fx Ex].
  destruct (lookup_lt_is_Some_2 cs y (Hy _ eq_refl)) as [fy Ey].
  destruct (lookup_lt_is_Some_2 cs z (Hz _ eq_refl)) as [fz Ez].
  rewrite Ex, Ey, Ez. cbn [mbind option_bind].
  destruct (totvert fx =? totvert fy) eqn:Exy; cbn [negb orb]; eauto.
  destruct (totvert fy =? totvert fz) eqn:Eyz; cbn [negb orb]; eauto.
  apply Z.eqb_eq in Exy, Eyz.
  destruct (totvert fx <? 2) eqn:Elt; eauto.
  apply Z.ltb_ge in Elt.
  assert (Cx : curve_length cs x (totvert fx)) by (exists fx; auto).
  assert (Cy : curve_length cs y (totvert fx)) by (exists fy; split; [auto | lia]).
  assert (Cz : curve_length cs z (totvert fx)) by (exists fz; split; [auto | lia]).
  destruct (key_value_total cs x _ 0 Hk Cx ltac:(lia)) as [lx ->].
  destruct (key_value_total cs y _ 0 Hk Cy ltac:(lia)) as [ly ->].
  destruct (key_value_total cs z _ 0 Hk Cz ltac:(lia)) as [lz ->].
  cbn [mbind option_bind].
  destruct (fold_step_total x y z (totvert fx)
              (seq 1 (Z.to_nat (totvert fx) - 1)) cs (lx, ly, lz) Hk Cx Cy Cz)
    as (cs' & le' & ->).
  { apply Forall_forall. intros i Hi%list_elem_of_In%in_seq. lia. }
  cbn. eauto.
Qed.

Lemma set_fcurve_valid (n : nat) idx (fcu : nat) (t : option nat * option nat * option nat) :
  (fcu < n)%nat ->
  (let '(x, y, z) := t in
   (forall i, x = Some i -> (i < n)%nat) /\
   (forall i, y = Some i -> (i < n)%nat) /\
   (forall i, z = Some i -> (i < n)%nat)) ->
  let '(x, y, z) := set_fcurve idx fcu t in
  (forall i, x = Some i -> (i < n)%nat) /\
  (forall i, y = Some i -> (i < n)%nat) /\
  (forall i, z = Some i -> (i < n)%nat).
Proof.
  intros Hf. destruct t as [[x y] z]. intros (Hx & Hy & Hz). unfold set_fcurve.
  destruct (idx =? 0); [|destruct (idx =? 1)];
    (repeat split; try assumption; intros i [= <-]; exact Hf).
Qed.

Lemma removelast_valid {A} (P : A -> Prop) (l : list A) :
  Forall P l -> Forall P (removelast l).
Proof.
  intros H. apply Forall_forall. intros a Ha%list_elem_of_In.
  rewrite Forall_forall in H. apply H, list_elem_of_In.
  destruct l as [|b l]; [destruct Ha|].
  destruct (exists_last (l := b :: l) ltac:(discriminate)) as (l' & c & E).
  rewrite E in *. rewrite removelast_last in Ha. apply in_or_app. now left.
Qed.

Lemma group_step_valid cs g ale :
  ale_id ale <> None -> (ale_data ale < length cs)%nat ->
  Forall (group_valid (length cs)) (euler_groups g) ->
  Forall (group_valid (length cs)) (euler_groups (group_step cs g ale)).
Proof.
  intros Hid Hd Hg. unfold group_step.
  destruct (cs !! ale_data ale) as [fcu|]; [|exact Hg].
  destruct (negb _); [exact Hg|].
  destruct (negb _); [exact Hg|].
  assert (Hnew : group_valid (length cs)
                   {| euf_id := ale_id ale;
                      fcurves := set_fcurve (array_index fcu) (ale_data ale)
                                            (None, None, None);
                      euf_rna_path := rna_path fcu |}).
  { split; [exact Hid|]. cbn [fcurves].
    apply (set_fcurve_valid _ _ _ (None, None, None) Hd).
    repeat split; discriminate. }
  destruct (last (euler_groups g)) as [euf|] eqn:El.
  - destruct (_ && _); cbn [euler_groups].
    + apply Forall_app. split; [now apply removelast_valid|].
      constructor; [|constructor].
      assert (Hin : euf ∈ euler_groups g) by (now apply last_Some_elem_of).
      rewrite Forall_forall in Hg. destruct (Hg _ Hin) as [He Hb].
      split; [exact He|]. cbn [fcurves].
      apply (set_fcurve_valid _ _ _ _ Hd Hb).
    + apply Forall_app. split; [exact Hg | constructor; [exact Hnew | constructor]].
  - cbn [euler_groups].
    apply Forall_app. split; [exact Hg | constructor; [exact Hnew | constructor]].
Qed.

Lemma group_fold_valid cs (ales : list bAnimListElem) : forall g,
  channels_sound cs ales ->
  Forall (group_valid (length cs)) (euler_groups g) ->
  Forall (group_valid (length cs)) (euler_groups (fold_left (group_step cs) ales g)).
Proof.
  induction ales as [|ale ales IH]; intros g Hs Hg; cbn [fold_left]; [exact Hg|].
  apply Forall_cons in Hs as [[Hid Hd] Hs].
  apply IH; [exact Hs | now apply group_step_valid].
Qed.

(** X15.  [euler_filter_quaternion] dereferences no [NULL] pointer and
    reads no key outside a keyframe array on any group that
    [euler_filter_group_channels] returns, when every listed channel has
    an ID block and points to a curve of the context, and every curve has
    a keyframe array of the length it records; this holds on the curves
    as they are and on curves of the same shape, as the filtering of
    earlier groups leaves them.  The equal-length test of a group is what
    keeps the keyframe loop, bounded by the X curve, inside the arrays of
    the Y and Z curves. *)
Theorem euler_quaternion_stays_in_bounds cs anim_data reports0 euf cs' reps :
  channels_sound cs anim_data ->
  Forall curve_keyed cs ->
  In euf (euler_groups (euler_filter_group_channels cs anim_data reports0)) ->
  Forall2 same_shape cs cs' ->
  is_Some (euler_filter_quaternion Quat eul_to_quat quat_to_compatible_eul move
             euf cs' reps).
Proof.
  intros Hs Hk Hin Hshape.
  apply quaternion_total; [exact (shape_all_keyed _ _ Hk Hshape)|].
  rewrite <- (Forall2_length _ _ _ Hshape).
  assert (Hv : Forall (group_valid (length cs))
                 (euler_groups (euler_filter_group_channels cs anim_data reports0))).
  { apply group_fold_valid; [exact Hs | constructor]. }
  rewrite Forall_forall in Hv. apply Hv. now apply list_elem_of_In.
Qed.

End EulerSafetyFacts.

(* ====================================================================== *)
(** * The session and the Euler filter at the sample data *)
(* ====================================================================== *)

Section SessionWitnesses.

Import DecimateUI.

Lemma invoke_with_eligible_curve_witness :
  Forall fcu_wf (curves demo_start) /\
  Forall (arr_size_fits demo_host) (curves demo_start) /\
  context_ok demo_start = true /\
  Exists (fun fcu => eligible demo_host fcu = true) (curves demo_start) /\
  exists st' dgo,
    graphkeys_decimate_invoke demo_host demo_start (mouse_at 500)
    = Some (OPERATOR_RUNNING_MODAL, st') /\
    curves st' = curves demo_start /\
    remove_ratio st'
    = clamp_ratio
        (fdiv (of_int (int_sub (ev_x (mouse_at 500))
                               (winrct_xmin (region demo_start))))
              (of_int (winx (region demo_start)))) /\
    customdata st' = Some dgo /\
    num dgo = num_calloc demo_host /\
    bezt_arr_list dgo = snapshot_of demo_host (curves demo_start) /\
    length (bezt_arr_list dgo)
    = length (filter (fun fcu => eligible demo_host fcu = true)
                (curves demo_start)) /\
    last (events st') = Some WM_event_add_modal_handler.
Proof.
  split; [exact demo_start_wf|].
  split; [exact demo_start_fits|].
  split; [reflexivity|].
  split; [apply Exists_cons_hd; vm_compute; reflexivity|].
  apply (invoke_with_eligible_curve demo_host demo_start (mouse_at 500));
    [exact demo_start_wf | exact demo_start_fits | reflexivity
    | apply Exists_cons_hd; vm_compute; reflexivity].
Defined.

Lemma invoke_outcome_witness :
  Forall fcu_wf (curves demo_start) /\
  Forall (arr_size_fits demo_host) (curves demo_start) /\
  exists ret st',
    graphkeys_decimate_invoke demo_host demo_start (mouse_at 500)
    = Some (ret, st') /\
    ret = (if context_ok demo_start
              && existsb (eligible demo_host) (curves demo_start)
           then OPERATOR_RUNNING_MODAL else OPERATOR_CANCELLED) /\
    curves st' = curves demo_start /\
    (customdata st' = None <-> ret = OPERATOR_CANCELLED) /\
    (context_ok demo_start = false ->
     remove_ratio st' = remove_ratio demo_start /\
     events st' = events demo_start
                  ++ [WM_cursor_modal_set; WM_cursor_modal_restore;
                      ED_area_status_text None]).
Proof.
  split; [exact demo_start_wf|].
  split; [exact demo_start_fits|].
  exact (invoke_outcome demo_host demo_start (mouse_at 500)
           demo_start_wf demo_start_fits).
Defined.

Lemma confirm_keeps_last_update_witness :
  decimator_keeps_shape demo_host /\
  Forall fcu_wf (curves demo_start) /\
  Forall (arr_size_fits demo_host) (curves demo_start) /\
  graphkeys_decimate_invoke demo_host demo_start (mouse_at 500)
  = Some (OPERATOR_RUNNING_MODAL, demo_session) /\
  is_confirm (press EVT_RETKEY) = true /\
  exists st2 st3,
    updates demo_host ([f_0_9] ++ [f_half]) demo_session = Some st2 /\
    graphkeys_decimate_modal demo_host st2 (press EVT_RETKEY)
    = Some (OPERATOR_FINISHED, st3) /\
    curves st3
    = map (decimated_curve demo_host (clamp_ratio f_half) FLT_MAX)
        (curves demo_start) /\
    customdata st3 = None.
Proof.
  split; [apply spec_decimator_keeps_shape|].
  split; [exact demo_start_wf|].
  split; [exact demo_start_fits|].
  split; [vm_compute; reflexivity|].
  split; [reflexivity|].
  apply (confirm_keeps_last_update demo_host demo_start (mouse_at 500)
           demo_session [f_0_9] f_half (press EVT_RETKEY)).
  - apply spec_decimator_keeps_shape.
  - exact demo_start_wf.
  - exact demo_start_fits.
  - vm_compute; reflexivity.
  - reflexivity.
Defined.

Lemma update_matches_exec_witness :
  decimator_keeps_shape demo_host /\
  Forall fcu_wf (curves demo_start) /\
  Forall (arr_size_fits demo_host) (curves demo_start) /\
  graphkeys_decimate_invoke demo_host demo_start (mouse_at 500)
  = Some (OPERATOR_RUNNING_MODAL, demo_session) /\
  mode demo_start = DECIM_RATIO /\
  feq (clamp_ratio f_half) fzero = false /\
  exists st2,
    update demo_host f_half demo_session = Some st2 /\
    graphkeys_decimate_exec demo_host
      (RNA_property_float_set demo_host f_half demo_start)
    = (OPERATOR_FINISHED,
       emit demo_host WM_event_add_notifier
         (decimate_graph_keys demo_host (clamp_ratio f_half) FLT_MAX
            (RNA_property_float_set demo_host f_half demo_start))) /\
    curves st2
    = curves (snd (graphkeys_decimate_exec demo_host
                     (RNA_property_float_set demo_host f_half demo_start))).
Proof.
  split; [apply spec_decimator_keeps_shape|].
  split; [exact demo_start_wf|].
  split; [exact demo_start_fits|].
  split; [vm_compute; reflexivity|].
  split; [reflexivity|].
  split; [vm_compute; reflexivity|].
  apply (update_matches_exec demo_host demo_start (mouse_at 500) demo_session
           f_half).
  - apply spec_decimator_keeps_shape.
  - exact demo_start_wf.
  - exact demo_start_fits.
  - vm_compute; reflexivity.
  - reflexivity.
  - vm_compute; reflexivity.
Defined.

Lemma modal_ignored_events_witness :
  let dgo := Build_tDecimateGraphOp SpecNumInput
               (snapshot_of demo_host (curves demo_start))
               {| ni_engaged := false; ni_value := fzero |} in
  let ev := press (EVT_OTHER 100) in
  customdata demo_session = Some dgo /\
  is_mousemove ev = false /\ is_confirm ev = false /\ is_cancel ev = false /\
  is_key_press ev = true /\
  fst (handleNumInput demo_host (num dgo) ev) = false /\
  exists st',
    graphkeys_decimate_modal demo_host demo_session ev
    = Some (Z.lor OPERATOR_RUNNING_MODAL OPERATOR_PASS_THROUGH, st') /\
    curves st' = curves demo_session /\
    remove_ratio st' = remove_ratio demo_session /\
    events st' = events demo_session /\
    (bezt_arr_list <$> customdata st') = Some (bezt_arr_list dgo).
Proof.
  intros dgo ev.
  split; [vm_compute; reflexivity|].
  do 5 (split; [reflexivity|]).
  destruct (modal_ignored_events demo_host demo_session dgo ev) as [_ Hkey].
  - vm_compute; reflexivity.
  - reflexivity.
  - reflexivity.
  - reflexivity.
  - apply Hkey; reflexivity.
Defined.

End SessionWitnesses.

Section EulerWitnesses.

Import Euler.

Local Abbreviation sample_quaternion :=
  (euler_filter_quaternion _ sample_eul_to_quat sample_unwrap sample_move).

Lemma euler_quaternion_outcome_witness :
  exists cs',
    sample_quaternion cube_group cube_curves [] = Some (true, cs', []) /\
    @nil Report = [] /\
    exists ix iy iz fx fy fz,
      Some 1%nat = Some ix /\ Some 2%nat = Some iy /\ Some 3%nat = Some iz /\
      cube_curves !! ix = Some fx /\ cube_curves !! iy = Some fy /\
      cube_curves !! iz = Some fz /\
      totvert fx = totvert fy /\ totvert fy = totvert fz /\
      ((totvert fx < 2)%Z -> cs' = cube_curves).
Proof.
  destruct (sample_quaternion cube_group cube_curves [])
    as [[[ok cs'] reps']|] eqn:E; [|vm_compute in E; discriminate].
  assert (Hok : ok = true /\ reps' = []).
  { vm_compute in E. injection E as <- _ <-. auto. }
  destruct Hok as [-> ->]. exists cs'. split; [reflexivity|].
  exact (euler_quaternion_outcome sample_eul_to_quat sample_unwrap sample_move
           cube_group cube_curves [] true cs' [] E).
Defined.

Lemma euler_filter_nothing_to_fix_witness :
  let st := cube_state [ {| ale_id := Some cube; ale_data := 0%nat |} ] in
  context_ok st = true /\
  Forall (fun ale => euler_channel (curves st) ale = false) (anim_data st) /\
  exists st',
    graphkeys_euler_filter_exec sample_quaternion st
    = Some (OPERATOR_CANCELLED, st') /\
    curves st' = curves st /\
    events st' = events st /\
    last (reports st') = Some NoEulerCurves.
Proof.
  intros st.
  split; [reflexivity|].
  split; [repeat constructor|].
  apply (euler_filter_nothing_to_fix sample_quaternion st);
    [reflexivity | repeat constructor].
Defined.

(** On the cube the Z curve turns from 3 to -3; the stand-in brings the
    second key back to 3, and the first key and the other curves stay. *)
Lemma euler_quaternion_keeps_shape_witness :
  exists cs',
    sample_quaternion cube_group cube_curves [] = Some (true, cs', []) /\
    cs' <> cube_curves /\
    Forall2 same_shape cube_curves cs' /\
    (Some 1%nat <> Some 0%nat -> Some 2%nat <> Some 0%nat ->
     Some 3%nat <> Some 0%nat -> cs' !! 0%nat = cube_curves !! 0%nat).
Proof.
  destruct (sample_quaternion cube_group cube_curves [])
    as [[[ok cs'] reps']|] eqn:E; [|vm_compute in E; discriminate].
  assert (Hok : ok = true /\ reps' = [] /\ cs' <> cube_curves).
  { vm_compute in E. injection E as <- <- <-.
    split; [reflexivity|]. split; [reflexivity|]. discriminate. }
  destruct Hok as (-> & -> & Hne). exists cs'.
  split; [reflexivity|]. split; [exact Hne|].
  exact (euler_quaternion_keeps_shape sample_eul_to_quat sample_unwrap
           sample_move cube_group cube_curves [] true cs' [] 0%nat E).
Defined.

Lemma euler_quaternion_stays_in_bounds_witness :
  channels_sound cube_curves cube_channels /\
  Forall curve_keyed cube_curves /\
  In cube_group
    (euler_groups (euler_filter_group_channels cube_curves cube_channels [])) /\
  Forall2 same_shape cube_curves cube_curves /\
  is_Some (sample_quaternion cube_group cube_curves []).
Proof.
  assert (Hs : channels_sound cube_curves cube_channels).
  { repeat constructor; cbn; try discriminate; lia. }
  assert (Hk : Forall curve_keyed cube_curves).
  { repeat constructor; eexists; split; reflexivity. }
  assert (Hin : In cube_group
                  (euler_groups
                     (euler_filter_group_channels cube_curves cube_channels []))).
  { left. reflexivity. }
  assert (Hsh : Forall2 same_shape cube_curves cube_curves).
  { repeat constructor. }
  split; [exact Hs|]. split; [exact Hk|]. split; [exact Hin|].
  split; [exact Hsh|].
  exact (euler_quaternion_stays_in_bounds sample_eul_to_quat sample_unwrap
           sample_move cube_curves cube_channels [] cube_group cube_curves []
           Hs Hk Hin Hsh).
Defined.

End EulerWitnesses.
